(** * calc_pi_dist: the dashboard of the distributed pi computation

    A shallow embedding of [src/static/dashboard.js] (class [Dashboard]):
    the digit state table with its reconciliation against job snapshots,
    the result history, the reconnect backoff and the exact hexadecimal
    to decimal conversion.

    Conventions of the embedding.
    - A JavaScript number that the dashboard uses as a digit index or a
      loop bound is either [NaN] or an integer; integers are unbounded
      ([Z]), which agrees with the IEEE doubles of the source on the
      safe integers, those below 2^53 in magnitude ([safe]). Beyond them
      the doubles round, and from 10^21 [String] prints an exponent: a
      statement that depends on the value of such a number carries
      [safe] as a hypothesis. JSON numbers are integers.
    - Strings are sequences of one-byte characters ([string]); a hex digit
      stored in the table is a string, as [hex[i]] is for a string [hex]
      in the source. A [hex] that is a JSON array is outside the model,
      and a statement about stored values says that [hex] is a string.
    - [this.digitStates] (a [Map]) is a [gmap] from numbers to entries and
      the two local [Set]s of [updateJobStates] are [gset]s. A loop over
      one of them is a fold over its elements; each such loop reads and
      writes only the key it visits, so the order of the iteration does
      not show in the final table.
    - A message is what [JSON.parse] returns: the job lists are arrays of
      job wrappers, and a property of a payload is absent ([VUndef]),
      [null], a boolean, a number, a string or an object. An input on
      which the source throws (a job list that is not an array, a
      wrapper that is [null]) is outside the model.
    - The DOM (the [elements] and the rendering functions that only write
      to them) is not part of the state. *)

From Stdlib Require Import ZArith List String Ascii Lia Bool.
From Stdlib Require Import DecimalString.
From Stdlib Require Decimal DecimalPos DecimalZ.
From stdpp Require Import base decidable countable gmap strings list fin_maps fin_sets.

Open Scope Z_scope.

(** ** JavaScript values *)

Module JS.

(** Numbers as the dashboard meets them: [NaN] or an integer. *)
Inductive num : Type :=
| NaN
| Int (z : Z).

#[global] Instance num_eq_dec : EqDecision num.
Proof. solve_decision. Defined.

Definition num_to_option (n : num) : option Z :=
  match n with NaN => None | Int z => Some z end.

Definition num_of_option (o : option Z) : num :=
  match o with None => NaN | Some z => Int z end.

#[global] Instance num_countable : Countable num.
Proof.
  apply (inj_countable' num_to_option num_of_option).
  intros []; reflexivity.
Defined.

(** [Math.max(a, b)]: [NaN] as soon as one argument is. *)
Definition Math_max (a b : num) : num :=
  match a, b with
  | Int x, Int y => Int (Z.max x y)
  | _, _ => NaN
  end.

(** [Math.min(a, b)]. *)
Definition Math_min (a b : num) : num :=
  match a, b with
  | Int x, Int y => Int (Z.min x y)
  | _, _ => NaN
  end.

(** The safe integers: those that a double holds exactly together with
    their neighbours, [Number.isSafeInteger]. *)
Definition safe (z : Z) : bool :=
  (-9007199254740991 <=? z) && (z <=? 9007199254740991).

(** [a + i] for a number [a] and a loop counter [i]. *)
Definition add (a : num) (i : Z) : num :=
  match a with
  | NaN => NaN
  | Int x => Int (x + i)
  end.

(** A value read from a parsed JSON message. [VUndef] is what reading an
    absent property gives; [VObj] is a plain object. *)
Inductive val : Type :=
| VUndef
| VNull
| VBool (b : bool)
| VNum (z : Z)
| VStr (s : string)
| VObj.

#[global] Instance val_eq_dec : EqDecision val.
Proof. solve_decision. Defined.

(** Truthiness, as [if (v)], [v && ...] and [v || ...] test it. *)
Definition truthy (v : val) : bool :=
  match v with
  | VUndef => false
  | VNull => false
  | VBool b => b
  | VNum z => negb (z =? 0)
  | VStr s => negb (String.eqb s "")
  | VObj => true
  end.

(** [String(v)], the conversion [parseInt] applies to its argument. A
    number prints as its decimal digits, which is what the source prints
    for an integer below 10^21 in magnitude. *)
Definition ToString (v : val) : string :=
  match v with
  | VUndef => "undefined"
  | VNull => "null"
  | VBool true => "true"
  | VBool false => "false"
  | VNum z => NilZero.string_of_int (Z.to_int z)
  | VStr s => s
  | VObj => "[object Object]"
  end.

Definition code (a : ascii) : Z := Z.of_N (N_of_ascii a).

(** White space that [parseInt], [trim] and the class [\s] skip (the
    one-byte ones): TAB, LF, VT, FF, CR, the space and the no-break space
    U+00A0. *)
Definition is_white_space (a : ascii) : bool :=
  let c := code a in ((9 <=? c) && (c <=? 13)) || (c =? 32) || (c =? 160).

Fixpoint trim_start (s : string) : string :=
  match s with
  | String a s' => if is_white_space a then trim_start s' else s
  | EmptyString => s
  end.

(** The value of a character as a digit, in the largest radix (36). *)
Definition digit_value (a : ascii) : option Z :=
  let c := code a in
  if (48 <=? c) && (c <=? 57) then Some (c - 48)
  else if (97 <=? c) && (c <=? 122) then Some (c - 87)
  else if (65 <=? c) && (c <=? 90) then Some (c - 55)
  else None.

Definition radix_digit (R : Z) (a : ascii) : option Z :=
  match digit_value a with
  | Some v => if v <? R then Some v else None
  | None => None
  end.

(** The digits of the longest prefix of [s] made of radix-[R] digits. *)
Fixpoint digits_prefix (R : Z) (s : string) : list Z :=
  match s with
  | String a s' =>
      match radix_digit R a with
      | Some v => v :: digits_prefix R s'
      | None => []
      end
  | EmptyString => []
  end.

Definition math_int (R : Z) (ds : list Z) : Z :=
  fold_left (fun acc v => acc * R + v) ds 0.

Definition strip_sign (s : string) : Z * string :=
  match s with
  | String "-" s' => (-1, s')
  | String "+" s' => (1, s')
  | _ => (1, s)
  end.

Definition strip_hex_prefix (s : string) : option string :=
  match s with
  | String "0" (String "x" s') => Some s'
  | String "0" (String "X" s') => Some s'
  | _ => None
  end.

(** [parseInt(s, radix)] on a string; [radix = 0] stands for an absent
    radix. *)
Definition parseInt_string (s : string) (radix : Z) : num :=
  let '(sign, S1) := strip_sign (trim_start s) in
  if negb (radix =? 0) && ((radix <? 2) || (36 <? radix)) then NaN
  else
    let strip := (radix =? 0) || (radix =? 16) in
    let R0 := if radix =? 0 then 10 else radix in
    let '(R, S2) :=
      match (if strip then strip_hex_prefix S1 else None) with
      | Some S' => (16, S')
      | None => (R0, S1)
      end in
    match digits_prefix R S2 with
    | [] => NaN
    | ds => Int (sign * math_int R ds)
    end.

(** [parseInt(v)], as the dashboard calls it on [start] and [count]. *)
Definition parseInt (v : val) : num := parseInt_string (ToString v) 0.

(** [s.toUpperCase()] on one-byte characters. *)
Definition upper (a : ascii) : ascii :=
  let c := code a in
  if (97 <=? c) && (c <=? 122) then ascii_of_N (Z.to_N (c - 32)) else a.

Fixpoint toUpperCase (s : string) : string :=
  match s with
  | String a s' => String (upper a) (toUpperCase s')
  | EmptyString => EmptyString
  end.

(** [n.toString()] of a BigInt. *)
Definition BigInt_toString (n : Z) : string := NilZero.string_of_int (Z.to_int n).

End JS.

Import JS.

(** ** The state of a [Dashboard] *)

(** The [state] tag of an entry of [digitStates]: ['queue'], ['inflight']
    or ['result']. An index without an entry is what the specification
    calls empty. *)
Inductive StateTag : Type :=
| SQueue
| SInflight
| SResult.

#[global] Instance StateTag_eq_dec : EqDecision StateTag.
Proof. solve_decision. Defined.

(** An entry [{ state, value }]; [value] is [null] ([None]) or the hex
    digit. *)
Record DigitState : Type := mkDigitState {
  state : StateTag;
  value : option string
}.

#[global] Instance DigitState_eq_dec : EqDecision DigitState.
Proof. solve_decision. Defined.

(** [job.payload] of a job wrapper, when it is an object: its [type],
    [start] and [count] properties ([VUndef] when absent). *)
Record Payload : Type := mkPayload {
  p_type : val;
  p_start : val;
  p_count : val
}.

(** A job wrapper of a [job_update] message. [payload = None] when the
    wrapper has no [payload] property or when it is not an object: both
    fail the test of [updateJobStates]. *)
Record Job : Type := mkJob {
  payload : option Payload
}.

(** The [result] object of a [result] message: its [hex], [start] and
    [count] properties ([VUndef] when absent). *)
Record ResultPayload : Type := mkResultPayload {
  r_hex : val;
  r_start : val;
  r_count : val
}.

(** A [result] message: [data.job_id], [data.result] ([None] when absent
    or not an object) and [data.timestamp]. *)
Record ResultData : Type := mkResultData {
  job_id : val;
  result : option ResultPayload;
  timestamp : val
}.

(** What [addResult] stores in [this.results]. *)
Record ResultRecord : Type := mkResultRecord {
  rec_job_id : val;
  rec_result : option ResultPayload;
  rec_timestamp : val
}.

(** [ws.readyState] of a WebSocket. *)
Inductive ReadyState : Type :=
| CONNECTING
| OPEN
| CLOSING
| CLOSED.

#[global] Instance ReadyState_eq_dec : EqDecision ReadyState.
Proof. solve_decision. Defined.

(** The fields of [Dashboard] that carry state; [ws = None] is [null]. *)
Record Dashboard : Type := mkDashboard {
  ws : option ReadyState;
  reconnectDelay : Z;
  maxReconnectDelay : Z;
  results : list ResultRecord;
  maxResults : nat;
  digitStates : gmap num DigitState;
  maxDigit : num
}.

Definition set_ws (w : option ReadyState) (d : Dashboard) : Dashboard :=
  mkDashboard w (reconnectDelay d) (maxReconnectDelay d) (results d)
    (maxResults d) (digitStates d) (maxDigit d).

Definition set_reconnectDelay (z : Z) (d : Dashboard) : Dashboard :=
  mkDashboard (ws d) z (maxReconnectDelay d) (results d)
    (maxResults d) (digitStates d) (maxDigit d).

Definition set_results (r : list ResultRecord) (d : Dashboard) : Dashboard :=
  mkDashboard (ws d) (reconnectDelay d) (maxReconnectDelay d) r
    (maxResults d) (digitStates d) (maxDigit d).

Definition set_digitStates (t : gmap num DigitState) (d : Dashboard) : Dashboard :=
  mkDashboard (ws d) (reconnectDelay d) (maxReconnectDelay d) (results d)
    (maxResults d) t (maxDigit d).

Definition set_maxDigit (m : num) (d : Dashboard) : Dashboard :=
  mkDashboard (ws d) (reconnectDelay d) (maxReconnectDelay d) (results d)
    (maxResults d) (digitStates d) m.

(** The fields as the constructor sets them, before it calls [connect]. *)
Definition new_Dashboard : Dashboard :=
  {| ws := None;
     reconnectDelay := 1000;
     maxReconnectDelay := 30000;
     results := [];
     maxResults := 50;
     digitStates := ∅;
     maxDigit := Int (-1) |}.

(** ** The digit state table *)

(** The values [i] takes in [for (let i = 0; i < bound; i++)]. *)
Definition loop_range (bound : num) : list Z :=
  match bound with
  | NaN => []
  | Int c => map Z.of_nat (seq 0 (Z.to_nat c))
  end.

(** The test [payload && payload.type === 'bbp_hex' &&
    payload.start !== undefined && payload.count !== undefined] on a
    payload that is an object. *)
Definition recognized (p : Payload) : bool :=
  bool_decide (p_type p = VStr "bbp_hex")
  && negb (bool_decide (p_start p = VUndef))
  && negb (bool_decide (p_count p = VUndef)).

(** The body of a collecting loop of [updateJobStates] for one job: the
    set of digits and [this.maxDigit] before and after. *)
Definition collectJob (job : Job) (acc : gset num * num) : gset num * num :=
  match payload job with
  | Some p =>
      if recognized p then
        let start := parseInt (p_start p) in
        let count := parseInt (p_count p) in
        fold_left
          (fun '(digits, mx) i =>
             let digitIndex := add start i in
             ({[digitIndex]} ∪ digits, Math_max mx digitIndex))
          (loop_range count) acc
      else acc
  | None => acc
  end.

(** A collecting loop: [for (const job of jobs) ...], starting from an
    empty set. *)
Definition collectDigits (jobs : list Job) (mx : num) : gset num * num :=
  fold_left (fun acc job => collectJob job acc) jobs (∅, mx).

(** The test of the clearing loop on an entry: its state is queue or
    inflight and its index is in neither set. *)
Definition stale (queueDigits inflightDigits : gset num) (kv : num * DigitState) : bool :=
  (bool_decide (state kv.2 = SQueue) || bool_decide (state kv.2 = SInflight))
  && negb (bool_decide (kv.1 ∈ queueDigits))
  && negb (bool_decide (kv.1 ∈ inflightDigits)).

(** The clearing loop: [for (const [digitIndex, state] of
    this.digitStates.entries())], which deletes the entry it visits when
    the test holds. *)
Definition clearStale (queueDigits inflightDigits : gset num)
    (t : gmap num DigitState) : gmap num DigitState :=
  fold_left
    (fun acc kv => if stale queueDigits inflightDigits kv then delete kv.1 acc else acc)
    (map_to_list t) t.

(** [!currentState || currentState.state !== 'result'] *)
Definition not_result (currentState : option DigitState) : bool :=
  match currentState with
  | None => true
  | Some st => negb (bool_decide (state st = SResult))
  end.

(** The body of the loop that sets queue states. *)
Definition setQueue (inflightDigits : gset num) (digitIndex : num)
    (t : gmap num DigitState) : gmap num DigitState :=
  if not_result (t !! digitIndex) then
    if negb (bool_decide (digitIndex ∈ inflightDigits)) then
      <[digitIndex := mkDigitState SQueue None]> t
    else t
  else t.

(** The body of the loop that sets inflight states. *)
Definition setInflight (digitIndex : num)
    (t : gmap num DigitState) : gmap num DigitState :=
  if not_result (t !! digitIndex) then
    <[digitIndex := mkDigitState SInflight None]> t
  else t.

(** [updateJobStates(queueJobs, inflightJobs)] *)
Definition updateJobStates (queueJobs inflightJobs : list Job) (d : Dashboard) : Dashboard :=
  let '(queueDigits, m1) := collectDigits queueJobs (maxDigit d) in
  let '(inflightDigits, m2) := collectDigits inflightJobs m1 in
  let t1 := clearStale queueDigits inflightDigits (digitStates d) in
  let t2 := set_fold (setQueue inflightDigits) t1 queueDigits in
  let t3 := set_fold setInflight t2 inflightDigits in
  set_digitStates t3 (set_maxDigit m2 d).

(** [hex.length], as the bound of a loop: a number for a string, and
    [undefined], against which every comparison is false, otherwise. *)
Definition hex_length (hex : val) : num :=
  match hex with
  | VStr s => Int (Z.of_nat (String.length s))
  | _ => NaN
  end.

(** [hex[i]] for a string [hex] and [i] below its length: the string of
    its [i]-th character. *)
Definition hex_at (hex : val) (i : Z) : string :=
  match hex with
  | VStr s => substring (Z.to_nat i) 1 s
  | _ => ""
  end.

(** The body of the loop of [updateResultState]. *)
Definition setResult (start : num) (hex : val) (d : Dashboard) (i : Z) : Dashboard :=
  let digitIndex := add start i in
  let value := hex_at hex i in
  let d1 := set_digitStates (<[digitIndex := mkDigitState SResult (Some value)]> (digitStates d)) d in
  set_maxDigit (Math_max (maxDigit d1) digitIndex) d1.

(** The guard of [updateResultState] on a result that is an object. *)
Definition result_present (r : ResultPayload) : bool :=
  truthy (r_hex r)
  && negb (bool_decide (r_start r = VUndef))
  && negb (bool_decide (r_count r = VUndef)).

(** [updateResultState(result)]. The loop runs while [i < count &&
    i < hex.length]: for [i] below the smaller of the two, and not at all
    when one of them is not a number. *)
Definition updateResultState (res : option ResultPayload) (d : Dashboard) : Dashboard :=
  match res with
  | Some r =>
      if result_present r then
        let start := parseInt (r_start r) in
        let count := parseInt (r_count r) in
        let hex := r_hex r in
        fold_left (setResult start hex)
          (loop_range (Math_min count (hex_length hex))) d
      else d
  | None => d
  end.

(** ** The result history *)

(** The object that [addResult] puts in the history; [now] is
    [Math.floor(Date.now() / 1000)]. *)
Definition recordOf (now : Z) (data : ResultData) : ResultRecord :=
  {| rec_job_id := job_id data;
     rec_result := result data;
     rec_timestamp := if truthy (timestamp data) then timestamp data else VNum now |}.

(** [addResult(data)] *)
Definition addResult (now : Z) (data : ResultData) (d : Dashboard) : Dashboard :=
  let unshifted := recordOf now data :: results d in
  let kept :=
    if (maxResults d <? length unshifted)%nat
    then firstn (maxResults d) unshifted
    else unshifted in
  updateResultState (result data) (set_results kept d).

(** ** Messages *)

Inductive Message : Type :=
| queue_update (queue_length inflight_count : val)
| job_update (queue_jobs inflight_jobs : list Job)
| result_message (data : ResultData)
| unknown_message.

(** [handleMessage(data)]: the dispatch on [data.type]. *)
Definition handleMessage (now : Z) (msg : Message) (d : Dashboard) : Dashboard :=
  match msg with
  | queue_update _ _ => d
  | job_update queue_jobs inflight_jobs => updateJobStates queue_jobs inflight_jobs d
  | result_message data => addResult now data d
  | unknown_message => d
  end.

(** ** The contiguous prefix of resolved digits *)

(** The values [i] takes in [for (let i = 0; i <= bound; i++)]. *)
Definition loop_range_le (bound : num) : list Z :=
  match bound with
  | NaN => []
  | Int c => map Z.of_nat (seq 0 (Z.to_nat (c + 1)))
  end.

(** [arr[i] = v] on a JavaScript array, whose holes are [None]: an index
    at or past the length extends the array. *)
Definition array_set {A : Type} (i : nat) (v : A) (arr : list (option A)) : list (option A) :=
  if (i <? length arr)%nat then <[i := Some v]> arr
  else arr ++ replicate (i - length arr) None ++ [Some v].

(** [state && state.state === 'result' && state.value] *)
Definition resolved_value (st : option DigitState) : option string :=
  match st with
  | Some {| state := SResult; value := Some v |} =>
      if negb (String.eqb v "") then Some v else None
  | _ => None
  end.

(** The first loop of [getAllHexDigits]. *)
Definition collectHex (d : Dashboard) : list (option string) :=
  fold_left
    (fun hexArray i =>
       match resolved_value (digitStates d !! Int i) with
       | Some v => array_set (Z.to_nat i) v hexArray
       | None => hexArray
       end)
    (loop_range_le (maxDigit d)) [].

(** The second loop: concatenate up to the first hole. *)
Fixpoint joinPrefix (hexArray : list (option string)) : string :=
  match hexArray with
  | Some v :: rest => v +:+ joinPrefix rest
  | _ => ""
  end.

(** [getAllHexDigits()] *)
Definition getAllHexDigits (d : Dashboard) : string :=
  joinPrefix (collectHex d).

(** ** The decimal conversion *)

(** The loop that reads the numerator: [BigInt(parseInt(hexDigit, 16))]
    throws on a character that is no hex digit ([None]). *)
Fixpoint readNumerator (hexDigits : string) (numerator : Z) : option Z :=
  match hexDigits with
  | String hexDigit rest =>
      match parseInt_string (String hexDigit "") 16 with
      | Int digitValue => readNumerator rest (numerator * 16 + digitValue)
      | NaN => None
      end
  | EmptyString => Some numerator
  end.

(** The loop that computes the denominator. *)
Definition readDenominator (hexDigits : string) : Z :=
  fold_left (fun denominator _ => denominator * 16)
    (seq 0 (String.length hexDigits)) 1.

(** The digit loop, [fuel] iterations left; BigInt [/] and [%] truncate
    ([Z.quot], [Z.rem]). *)
Fixpoint decimalLoop (fuel : nat) (denominator currentNumerator : Z)
    (decimalResult : string) : string :=
  match fuel with
  | O => decimalResult
  | S fuel' =>
      let currentNumerator := currentNumerator * 10 in
      let digit := Z.quot currentNumerator denominator in
      let decimalResult := decimalResult +:+ BigInt_toString digit in
      let currentNumerator := Z.rem currentNumerator denominator in
      if currentNumerator =? 0 then decimalResult
      else decimalLoop fuel' denominator currentNumerator decimalResult
  end.

(** [hexFractionToDecimal(hexString, maxDigits)]; [None] when it throws. *)
Definition hexFractionToDecimal (hexString : string) (maxDigits : Z) : option string :=
  if (String.length hexString =? 0)%nat then Some "3."
  else
    let hexDigits := toUpperCase hexString in
    match readNumerator hexDigits 0 with
    | Some numerator =>
        let denominator := readDenominator hexDigits in
        let digitsToShow := Z.min (Z.of_nat (String.length hexDigits)) maxDigits in
        Some (decimalLoop (Z.to_nat digitsToShow) denominator numerator "3.")
    | None => None
    end.

(** [maxDecimalDigits] of [renderPiDecimal]:
    [Math.min(Math.max(1000, Math.ceil(len * 1.5)), 10000)]. *)
Definition maxDecimalDigits (len : Z) : Z :=
  Z.min (Z.max 1000 ((len * 3 + 1) / 2)) 10000.

(** ** The connection *)

(** What happens to the connection: the three handlers that [connect]
    installs on the socket, and the callback that [scheduleReconnect]
    hands to [setTimeout]. [created] tells whether [new WebSocket] returns
    a socket, or throws, at that call. *)
Inductive Event : Type :=
| onopen
| onerror
| onclose
| timer (created : bool).

(** [scheduleReconnect()]: the delay it passes to [setTimeout]. *)
Definition scheduleReconnect (d : Dashboard) : list Z := [reconnectDelay d].

(** [connect()], with the delays of the timers it sets. *)
Definition connect (created : bool) (d : Dashboard) : Dashboard * list Z :=
  if created then (set_ws (Some CONNECTING) d, [])
  else (d, scheduleReconnect d).

(** The callback of [scheduleReconnect]. *)
Definition reconnect (created : bool) (d : Dashboard) : Dashboard * list Z :=
  match ws d with
  | Some CLOSED =>
      let '(d1, timers) := connect created d in
      (set_reconnectDelay
         (Z.min (reconnectDelay d1 * 2) (maxReconnectDelay d1)) d1, timers)
  | _ => (d, [])
  end.

(** One event: the browser moves the socket to its new ready state and
    runs the handler. The result is the new state and the delays of the
    timers set meanwhile. *)
Definition handleEvent (e : Event) (d : Dashboard) : Dashboard * list Z :=
  match e with
  | onopen => (set_reconnectDelay 1000 (set_ws (Some OPEN) d), [])
  | onerror => (d, [])
  | onclose => let d1 := set_ws (Some CLOSED) d in (d1, scheduleReconnect d1)
  | timer created => reconnect created d
  end.

(** A sequence of events, with the delays of all timers set, in order. *)
Fixpoint run (events : list Event) (d : Dashboard) : Dashboard * list Z :=
  match events with
  | [] => (d, [])
  | e :: rest =>
      let '(d1, t1) := handleEvent e d in
      let '(d2, t2) := run rest d1 in
      (d2, t1 ++ t2)
  end.

(** The session once the constructor has run, the socket created. *)
Definition fresh_session : Dashboard := (connect true new_Dashboard).1.

(** * Definitions for the statements *)

(** ** Numbers *)

(** [this.maxDigit] after a run of [Math.max(this.maxDigit, x)] over the
    numbers of [l]. *)
Definition lmax (l : list num) (m : num) : num := fold_left Math_max l m.

(** ** The digits of a job snapshot *)

(** The indices that the collecting loop visits for one job, in order. *)
Definition jobIndices (job : Job) : list num :=
  match payload job with
  | Some p =>
      if recognized p
      then map (add (parseInt (p_start p))) (loop_range (parseInt (p_count p)))
      else []
  | None => []
  end.

Definition allIndices (jobs : list Job) : list num := flat_map jobIndices jobs.

(** The set of digit indices that a list of jobs asserts. *)
Definition digitsOf (jobs : list Job) : gset num := list_to_set (allIndices jobs).

(** ** The effect of a snapshot on one index *)

(** What one call of [updateJobStates] does to the entry of one index:
    the clearing loop, then the queue loop, then the inflight loop. *)
Definition clearEntry (inQ inI : bool) (o : option DigitState) : option DigitState :=
  match o with
  | Some st =>
      if (bool_decide (state st = SQueue) || bool_decide (state st = SInflight))
         && negb inQ && negb inI
      then None else Some st
  | None => None
  end.

Definition queueEntry (inI : bool) (o : option DigitState) : option DigitState :=
  if not_result o then
    if negb inI then Some (mkDigitState SQueue None) else o
  else o.

Definition inflightEntry (o : option DigitState) : option DigitState :=
  if not_result o then Some (mkDigitState SInflight None) else o.

Definition reconcileEntry (inQ inI : bool) (o : option DigitState) : option DigitState :=
  let o1 := clearEntry inQ inI o in
  let o2 := if inQ then queueEntry inI o1 else o1 in
  if inI then inflightEntry o2 else o2.

(** ** Sequences of snapshots, and sample messages *)

(** A sequence of [job_update] messages, each with its queued and its
    inflight jobs. *)
Definition applySnapshots (snaps : list (list Job * list Job)) (d : Dashboard) : Dashboard :=
  fold_left (fun d s => updateJobStates s.1 s.2 d) snaps d.

(** A payload [{ type: 'bbp_hex', start, count }] with numbers. *)
Definition bbp_job (start count : Z) : Job :=
  mkJob (Some (mkPayload (VStr "bbp_hex") (VNum start) (VNum count))).

(** A result [{ hex, start, count }] with numbers. *)
Definition hex_result (hex : string) (start count : Z) : ResultPayload :=
  mkResultPayload (VStr hex) (VNum start) (VNum count).

(** ** Jobs that the snapshot ignores *)

(** A wrapper without payload, with a payload of another type, without
    [start] or [count], or whose [count] does not parse to a number. *)
Definition ignored (job : Job) : bool :=
  match payload job with
  | None => true
  | Some p =>
      negb (bool_decide (p_type p = VStr "bbp_hex"))
      || bool_decide (p_start p = VUndef)
      || bool_decide (p_count p = VUndef)
      || bool_decide (parseInt (p_count p) = NaN)
  end.

(** A [bbp_hex] job whose [start] is the string ["x"]. *)
Definition stray_job : Job :=
  mkJob (Some (mkPayload (VStr "bbp_hex") (VStr "x") (VNum 1))).

(** A result whose [start] is the string ["x"]. *)
Definition stray_result : ResultPayload :=
  mkResultPayload (VStr "ab") (VStr "x") (VNum 2).

(** ** Results *)

(** The last [i] of [l] whose index [start + i] is [k]: the iteration of
    the loop of [updateResultState] that writes the final entry of [k]. *)
Definition lastWrite (start k : num) (l : list Z) : option Z :=
  fold_left (fun acc i => if decide (add start i = k) then Some i else acc) l None.

(** ** The result history *)

(** A stream of messages, each with the clock at its arrival. *)
Definition runMessages (msgs : list (Z * Message)) (d : Dashboard) : Dashboard :=
  fold_left (fun d m => handleMessage m.1 m.2 d) msgs d.

(** The records of the [result] messages of a stream, in order of
    arrival. *)
Definition recordsOf (msgs : list (Z * Message)) : list ResultRecord :=
  flat_map
    (fun m => match m.2 with
              | result_message data => [recordOf m.1 data]
              | _ => []
              end) msgs.

(** A result that fails the guard of [updateResultState] for want of a
    field. *)
Definition missing_field (res : option ResultPayload) : bool :=
  match res with
  | None => true
  | Some r =>
      bool_decide (r_hex r = VUndef)
      || bool_decide (r_start r = VUndef)
      || bool_decide (r_count r = VUndef)
  end.

(** ** Reconnecting *)

(** A connection that fails: the socket reports an error and closes, and
    the timer that [onclose] has set fires and creates the next socket. *)
Definition failure : list Event := [onerror; onclose; timer true].

Definition failures (n : nat) : list Event := concat (replicate n failure).

(** The delay of reconnect attempt [n], counted from 1. *)
Definition backoff (n : nat) : Z := Z.min (1000 * 2 ^ (Z.of_nat n - 1)) 30000.

(** ** The contiguous prefix *)

(** The invariant of the table that [getAllHexDigits] relies on: the
    high-water mark is a number, no index of the table is above it, and
    an entry in state result carries a non-empty value. *)
Definition entry_ok (h : Z) (kv : num * DigitState) : bool :=
  match kv.1 with
  | Int z =>
      (z <=? h)
      && match state kv.2, value kv.2 with
         | SResult, Some v => negb (String.eqb v "")
         | SResult, None => false
         | _, _ => true
         end
  | NaN => true
  end.

Definition table_ok (d : Dashboard) : bool :=
  match maxDigit d with
  | Int h => forallb (entry_ok h) (map_to_list (digitStates d))
  | NaN => false
  end.







Definition joinAll (l : list string) : string := fold_right String.append "" l.

(** What the first loop of [getAllHexDigits] finds for index [i]. *)
Definition resolvedAt (d : Dashboard) (i : nat) : option string :=
  resolved_value (digitStates d !! Int (Z.of_nat i)).

(** ** Numeric messages *)

(** The indices that [updateResultState] writes, in order. *)
Definition resultIndices (res : option ResultPayload) : list num :=
  match res with
  | Some r =>
      if result_present r
      then map (add (parseInt (r_start r)))
             (loop_range (Math_min (parseInt (r_count r)) (hex_length (r_hex r))))
      else []
  | None => []
  end.

(** The indices that a message writes or asserts. *)
Definition messageIndices (msg : Message) : list num :=
  match msg with
  | job_update queue_jobs inflight_jobs =>
      allIndices queue_jobs ++ allIndices inflight_jobs
  | result_message data => resultIndices (result data)
  | _ => []
  end.

(** No index of the message is [NaN]. *)
Definition numeric (msg : Message) : Prop := NaN ∉ messageIndices msg.

(** A message whose jobs and result give [start] as a JSON number, a
    safe integer. *)
Definition is_number (v : val) : bool :=
  match v with
  | VNum z => safe z
  | _ => false
  end.

Definition job_start_is_number (job : Job) : bool :=
  match payload job with
  | Some p => is_number (p_start p)
  | None => true
  end.

Definition starts_are_numbers (msg : Message) : bool :=
  match msg with
  | job_update queue_jobs inflight_jobs =>
      forallb job_start_is_number (queue_jobs ++ inflight_jobs)
  | result_message data =>
      match result data with
      | Some r => is_number (r_start r)
      | None => true
      end
  | _ => true
  end.

(** A message whose result, if it has one, gives [hex] as a string, or
    not at all. *)
Definition hex_is_string (msg : Message) : bool :=
  match msg with
  | result_message data =>
      match result data with
      | Some r =>
          match r_hex r with
          | VStr _ | VUndef => true
          | _ => false
          end
      | None => true
      end
  | _ => true
  end.

(** ** The decimal conversion *)

(** A hex digit: [0-9], [a-f] or [A-F]. *)
Definition is_hex_digit (a : ascii) : bool :=
  match radix_digit 16 a with
  | Some _ => true
  | None => false
  end.

Fixpoint hex_string (h : string) : bool :=
  match h with
  | String a rest => is_hex_digit a && hex_string rest
  | EmptyString => true
  end.

Definition hexDigitValue (a : ascii) : Z := default 0 (radix_digit 16 a).

(** The string [h] read as an integer in base 16: the sum of its digits,
    each times the power of 16 of its position. *)
Fixpoint hexValue (h : string) : Z :=
  match h with
  | String a rest => hexDigitValue a * 16 ^ Z.of_nat (String.length rest) + hexValue rest
  | EmptyString => 0
  end.

(** The [j]-th digit after the point of the decimal expansion of the
    rational [n / D], and what remains of the fraction after [j] digits. *)
Definition decimalDigit (n D : Z) (j : nat) : Z := (n * 10 ^ Z.of_nat j / D) mod 10.

Definition remainderAfter (n D : Z) (j : nat) : Z := (n * 10 ^ Z.of_nat j) mod D.

Definition digitChar (v : Z) : ascii := ascii_of_N (Z.to_N (48 + v)).

Definition digitsString (l : list Z) : string := string_of_list_ascii (map digitChar l).

(** ** Printing and parsing numbers *)

(** The decimal digits of a [Decimal.uint], most significant first. *)
Fixpoint uint_digits (d : Decimal.uint) : list Z :=
  match d with
  | Decimal.Nil => []
  | Decimal.D0 d => 0 :: uint_digits d
  | Decimal.D1 d => 1 :: uint_digits d
  | Decimal.D2 d => 2 :: uint_digits d
  | Decimal.D3 d => 3 :: uint_digits d
  | Decimal.D4 d => 4 :: uint_digits d
  | Decimal.D5 d => 5 :: uint_digits d
  | Decimal.D6 d => 6 :: uint_digits d
  | Decimal.D7 d => 7 :: uint_digits d
  | Decimal.D8 d => 8 :: uint_digits d
  | Decimal.D9 d => 9 :: uint_digits d
  end.

(** * The views, the reference digits and further definitions *)

(** ** The high-water mark and the shape of the table *)

(** The shape of a table that numeric messages build. *)
Definition table_shape (d : Dashboard) : Prop :=
  ∃ h, -1 ≤ h ∧ maxDigit d = Int h
       ∧ ∀ k st, digitStates d !! k = Some st →
           (∃ z, k = Int z ∧ z ≤ h)
           ∧ match state st with
             | SResult => ∃ a, value st = Some (String a "")
             | _ => value st = None
             end.

(** ** Results and snapshots in any order *)

(** The value that [updateResultState] leaves at index [k], when it
    writes there. *)
Definition writtenValue (res : option ResultPayload) (k : num) : option string :=
  match res with
  | Some r =>
      if result_present r
      then hex_at (r_hex r)
           <$> lastWrite (parseInt (r_start r)) k
                 (loop_range (Math_min (parseInt (r_count r)) (hex_length (r_hex r))))
      else None
  | None => None
  end.

(** The index lists of two results have no index in common. *)
Definition disjoint_results (res1 res2 : option ResultPayload) : bool :=
  forallb (fun k => negb (bool_decide (k ∈ resultIndices res2))) (resultIndices res1).

(** ** The reference digits *)

(** [text.split('\n')] *)
Fixpoint split_lines (text : string) : list string :=
  match text with
  | EmptyString => [""]
  | String c rest =>
      if Ascii.eqb c "010" then "" :: split_lines rest
      else
        match split_lines rest with
        | line :: lines => String c line :: lines
        | [] => [String c ""]
        end
  end.

(** [line.trim()] is truthy: the line has a character that is not white
    space. *)
Fixpoint has_non_space (line : string) : bool :=
  match line with
  | EmptyString => false
  | String c rest => negb (is_white_space c) || has_non_space rest
  end.

(** [line.replace(/\s/g, '')] *)
Fixpoint remove_spaces (line : string) : string :=
  match line with
  | EmptyString => EmptyString
  | String c rest =>
      if is_white_space c then remove_spaces rest else String c (remove_spaces rest)
  end.

(** What [loadCorrectPi] makes of the text of [pi.txt]: [None] when it
    reports an empty file and leaves [this.correctPi] as it is, and the
    new [this.correctPi] otherwise. *)
Definition parsePiText (text : string) : option string :=
  let lines := List.filter has_non_space (split_lines text) in
  match lines with
  | [] => None
  | _ :: rest =>
      Some (fold_left (fun piString line => piString +:+ remove_spaces line) rest "3.")
  end.

(** The line has no line feed in it. *)
Fixpoint one_line (line : string) : bool :=
  match line with
  | EmptyString => true
  | String c rest => negb (Ascii.eqb c "010") && one_line rest
  end.

(** ** The grid of digits *)

(** The string of a state tag, as [state.state] holds it. *)
Definition stateName (tag : StateTag) : string :=
  match tag with
  | SQueue => "queue"
  | SInflight => "inflight"
  | SResult => "result"
  end.

(** A span of the grid: its class ([className]) and its text ([hexValue]
    in the source), before [escapeHtml] and the markup around them. *)
Record Cell : Type := mkCell {
  className : string;
  spanText : string
}.

(** The body of the loop of [renderPiDigits]. *)
Definition gridCell (d : Dashboard) (i : Z) : Cell :=
  match digitStates d !! Int i with
  | Some st =>
      {| className := "pi-digit" +:+ " " +:+ stateName (state st);
         spanText := default "?" (resolved_value (Some st)) |}
  | None =>
      {| className := "pi-digit" +:+ " empty"; spanText := "?" |}
  end.

(** [renderPiDigits()]: [None] when it shows the waiting message, and
    the spans of the grid otherwise. *)
Definition renderPiDigits (d : Dashboard) : option (list Cell) :=
  match maxDigit d with
  | Int h => if h <? 0 then None else Some (map (gridCell d) (loop_range_le (Int h)))
  | NaN => Some (map (gridCell d) (loop_range_le NaN))
  end.


(** ** The age of a result *)

(** A time value that a [Date] holds: at most 8.64e15 milliseconds from
    the epoch on either side. *)
Definition valid_time (ms : Z) : bool :=
  (-8640000000000000 <=? ms) && (ms <=? 8640000000000000).

(** [formatTimestamp(timestamp)] for a timestamp in whole seconds;
    [nowMs] is the clock ([new Date()]) in milliseconds and
    [toLocaleString] renders the date of the timestamp. Outside the
    range of [valid_time] the date is invalid: [diff] is [NaN], every
    comparison fails and the last branch renders the invalid date. The
    division is the exact one, as the source's is while the timestamp is
    less than 2^42 seconds ahead of the clock. *)
Definition formatTimestamp (toLocaleString : Z → string) (nowMs timestamp : Z) : string :=
  if valid_time (timestamp * 1000) then
    let diff := (nowMs - timestamp * 1000) / 1000 in
    if diff <? 60 then ToString (VNum diff) +:+ " seconds ago"
    else if diff <? 3600 then
      let minutes := diff / 60 in
      ToString (VNum minutes) +:+ " minute" +:+ (if 1 <? minutes then "s" else "") +:+ " ago"
    else if diff <? 86400 then
      let hours := diff / 3600 in
      ToString (VNum hours) +:+ " hour" +:+ (if 1 <? hours then "s" else "") +:+ " ago"
    else toLocaleString timestamp
  else toLocaleString timestamp.

(** ** Highlighting against the reference *)

(** The loop of [renderPiDecimal] when the reference digits are loaded:
    each character of the decimal string with its [isCorrect]. *)
Definition highlight (correctPi decimalString : string) : list (string * bool) :=
  map
    (fun i =>
       let char := substring i 1 decimalString in
       let isCorrect :=
         (i <? String.length correctPi)%nat
         && bool_decide (char = substring i 1 correctPi) in
       (char, isCorrect))
    (seq 0 (String.length decimalString)).

(** * Properties *)

(** ** [parseInt] *)

Example parseInt_number : parseInt (VNum 12) = Int 12.
Proof. reflexivity. Qed.

Example parseInt_numeric_string : parseInt (VStr " -42px") = Int (-42).
Proof. reflexivity. Qed.

Example parseInt_hex_prefix : parseInt (VStr "0x1f") = Int 31.
Proof. reflexivity. Qed.

Example parseInt_word : parseInt (VStr "abc") = NaN.
Proof. reflexivity. Qed.

Example parseInt_null : parseInt VNull = NaN.
Proof. reflexivity. Qed.

Example parseInt_hex_digit : parseInt_string "F" 16 = Int 15.
Proof. reflexivity. Qed.

(** The no-break space U+00A0 is white space to [parseInt]. *)
Example parseInt_no_break_space : parseInt (VStr (String "160" "2")) = Int 2.
Proof. reflexivity. Qed.

(** [parseInt] reads back the number that [String] has printed. *)

Lemma digits_prefix_uint d :
  digits_prefix 10 (NilEmpty.string_of_uint d) = uint_digits d.
Proof. induction d; simpl; rewrite ?IHd; reflexivity. Qed.

Lemma horner_uint d acc :
  fold_left (fun a v => a * 10 + v) (uint_digits d) acc
  = Z.of_N (DecimalPos.Unsigned.of_lu (Decimal.rev d))
    + acc * 10 ^ Z.of_N (DecimalPos.Unsigned.usize d).
Proof.
  revert acc. induction d; intros acc;
    [simpl; lia | ..];
    cbn [uint_digits fold_left]; rewrite IHd;
    unfold Decimal.rev at 2; cbn [Decimal.revapp];
    rewrite DecimalPos.Unsigned.of_lu_revapp;
    cbn [DecimalPos.Unsigned.usize DecimalPos.Unsigned.of_lu];
    rewrite N2Z.inj_add, N2Z.inj_mul, N2Z.inj_pow, N2Z.inj_succ;
    rewrite Z.pow_succ_r by lia;
    rewrite ?N2Z.inj_add, ?N2Z.inj_mul; simpl Z.of_N; lia.
Qed.

Lemma math_int_uint d : math_int 10 (uint_digits d) = Z.of_uint d.
Proof.
  unfold math_int. rewrite horner_uint. unfold Z.of_uint.
  rewrite DecimalPos.Unsigned.of_uint_alt. lia.
Qed.

Lemma strip_hex_prefix_uint d : strip_hex_prefix (NilEmpty.string_of_uint d) = None.
Proof. destruct d as [|d|d|d|d|d|d|d|d|d|d]; try reflexivity; destruct d; reflexivity. Qed.

Lemma parseInt_string_digits s :
  trim_start s = s →
  strip_sign s = (1, s) →
  strip_hex_prefix s = None →
  digits_prefix 10 s ≠ [] →
  parseInt_string s 0 = Int (math_int 10 (digits_prefix 10 s))
  ∧ parseInt_string (String "-" s) 0 = Int (- math_int 10 (digits_prefix 10 s)).
Proof.
  intros Htrim Hsign Hhex Hdigits. split.
  - unfold parseInt_string. rewrite Htrim, Hsign. simpl. rewrite Hhex.
    destruct (digits_prefix 10 s) as [|v l]; [contradiction|].
    now destruct (math_int 10 (v :: l)).
  - unfold parseInt_string.
    change (trim_start (String "-" s)) with (String "-" s).
    change (strip_sign (String "-" s)) with (-1, s).
    simpl. rewrite Hhex.
    destruct (digits_prefix 10 s) as [|v l]; [contradiction|].
    now destruct (math_int 10 (v :: l)).
Qed.

Lemma parseInt_string_uint d :
  parseInt_string (NilZero.string_of_uint d) 0 = Int (Z.of_uint d)
  ∧ parseInt_string (String "-" (NilZero.string_of_uint d)) 0 = Int (- Z.of_uint d).
Proof.
  assert (Hd : d = Decimal.Nil ∨ d ≠ Decimal.Nil)
    by (destruct d; [now left|right; discriminate..]).
  destruct Hd as [->|Hd]; [split; reflexivity|].
  assert (Hs : NilZero.string_of_uint d = NilEmpty.string_of_uint d)
    by (destruct d; [contradiction|reflexivity..]).
  rewrite Hs, <- math_int_uint, <- digits_prefix_uint.
  apply parseInt_string_digits.
  - destruct d; reflexivity.
  - destruct d; reflexivity.
  - apply strip_hex_prefix_uint.
  - rewrite digits_prefix_uint. destruct d; [contradiction|discriminate..].
Qed.

(** [parseInt] gives a safe integer back: [String] prints all its
    digits. *)
Lemma parseInt_VNum z : safe z = true → parseInt (VNum z) = Int z.
Proof.
  intros _. unfold parseInt, ToString.
  rewrite <- (DecimalZ.of_to z) at 2.
  destruct (Z.to_int z) as [d|d]; simpl NilZero.string_of_int; simpl Z.of_int;
    apply parseInt_string_uint.
Qed.

(** ** Numbers *)

Lemma Math_max_comm a b : Math_max a b = Math_max b a.
Proof. destruct a, b; simpl; try reflexivity. f_equal. lia. Qed.

Lemma Math_max_assoc a b c : Math_max a (Math_max b c) = Math_max (Math_max a b) c.
Proof. destruct a, b, c; simpl; try reflexivity. f_equal. lia. Qed.

Lemma Math_max_idem a : Math_max a a = a.
Proof. destruct a; simpl; try reflexivity. f_equal. lia. Qed.

Lemma lmax_app l1 l2 m : lmax (l1 ++ l2) m = lmax l2 (lmax l1 m).
Proof. apply fold_left_app. Qed.

Lemma lmax_Math_max l a m : lmax l (Math_max a m) = Math_max a (lmax l m).
Proof.
  revert m. induction l as [|x l IH]; intros m; simpl; [reflexivity|].
  rewrite <- Math_max_assoc. apply IH.
Qed.

Lemma lmax_absorb l m x : x ∈ l → Math_max (lmax l m) x = lmax l m.
Proof.
  revert m. induction l as [|y l IH]; intros m Hx; [inversion Hx|].
  apply elem_of_cons in Hx as [->|Hx]; simpl.
  - rewrite (Math_max_comm m y), lmax_Math_max.
    rewrite (Math_max_comm (Math_max _ _) y), Math_max_assoc.
    now rewrite Math_max_idem.
  - now apply IH.
Qed.

Lemma lmax_fixed l n : (∀ x, x ∈ l → Math_max n x = n) → lmax l n = n.
Proof.
  induction l as [|y l IH]; intros Hn; simpl; [reflexivity|].
  rewrite (Hn y) by constructor.
  apply IH. intros x Hx. apply Hn. now constructor.
Qed.

Lemma lmax_idem l m : lmax l (lmax l m) = lmax l m.
Proof. apply lmax_fixed. intros x Hx. now apply lmax_absorb. Qed.

(** ** The digits of a job snapshot *)

Lemma collect_loop start (l : list Z) (S0 : gset num) (m : num) :
  fold_left
    (fun '(digits, mx) i =>
       let digitIndex := add start i in
       ({[digitIndex]} ∪ digits, Math_max mx digitIndex)) l (S0, m)
  = (list_to_set (map (add start) l) ∪ S0, lmax (map (add start) l) m).
Proof.
  revert S0 m. induction l as [|i l IH]; intros S0 m; simpl.
  - f_equal. symmetry. apply (left_id_L ∅ (∪)).
  - rewrite IH. f_equal.
    rewrite (assoc_L (∪)). f_equal. apply (comm_L (∪)).
Qed.

Lemma collectJob_spec job (S0 : gset num) (m : num) :
  collectJob job (S0, m)
  = (list_to_set (jobIndices job) ∪ S0, lmax (jobIndices job) m).
Proof.
  unfold collectJob, jobIndices.
  destruct (payload job) as [p|]; [destruct (recognized p)|].
  - apply collect_loop.
  - simpl. f_equal. symmetry. apply (left_id_L ∅ (∪)).
  - simpl. f_equal. symmetry. apply (left_id_L ∅ (∪)).
Qed.

Lemma collect_fold jobs (S0 : gset num) (m : num) :
  fold_left (fun acc job => collectJob job acc) jobs (S0, m)
  = (list_to_set (allIndices jobs) ∪ S0, lmax (allIndices jobs) m).
Proof.
  revert S0 m. induction jobs as [|job jobs IH]; intros S0 m; simpl.
  - f_equal. symmetry. apply (left_id_L ∅ (∪)).
  - rewrite collectJob_spec, IH. unfold allIndices. simpl.
    rewrite lmax_app, list_to_set_app_L. f_equal.
    rewrite (assoc_L (∪)). f_equal. apply (comm_L (∪)).
Qed.

Lemma collectDigits_spec jobs m :
  collectDigits jobs m = (digitsOf jobs, lmax (allIndices jobs) m).
Proof.
  unfold collectDigits, digitsOf. rewrite collect_fold. f_equal.
  apply (right_id_L ∅ (∪)).
Qed.

(** ** Loops over a set that touch only the key they visit *)

Section pointwise_fold.
  Context {V : Type}.
  Variable f : num → gmap num V → gmap num V.
  Variable g : num → option V → option V.
  Hypothesis f_lookup : ∀ k t j,
    f k t !! j = if decide (j = k) then g k (t !! k) else t !! j.

Lemma foldr_pointwise (l : list num) (t : gmap num V) (j : num) :
    NoDup l →
    foldr f t l !! j = if decide (j ∈ l) then g j (t !! j) else t !! j.
  Proof.
    induction 1 as [|k l Hk Hl IH]; simpl.
    - destruct (decide (j ∈ [])) as [Hin|]; [inversion Hin|reflexivity].
    - rewrite f_lookup. destruct (decide (j = k)) as [->|Hne].
      + rewrite IH. destruct (decide (k ∈ l)); [contradiction|].
        destruct (decide (k ∈ k :: l)) as [|Hn]; [reflexivity|].
        exfalso. apply Hn. constructor.
      + rewrite IH. destruct (decide (j ∈ l)) as [Hin|Hnin].
        * destruct (decide (j ∈ k :: l)) as [|Hn]; [reflexivity|].
          exfalso. apply Hn. now constructor.
        * destruct (decide (j ∈ k :: l)) as [Hin|]; [|reflexivity].
          apply elem_of_cons in Hin as [?|?]; contradiction.
  Qed.

Lemma set_fold_pointwise (X : gset num) (t : gmap num V) (j : num) :
    set_fold f t X !! j = if decide (j ∈ X) then g j (t !! j) else t !! j.
  Proof.
    unfold set_fold. simpl. rewrite foldr_pointwise by apply NoDup_elements.
    destruct (decide (j ∈ elements X)) as [Hin|Hnin];
      destruct (decide (j ∈ X)) as [Hx|Hnx]; try reflexivity.
    - exfalso. apply Hnx. now apply elem_of_elements.
    - exfalso. apply Hnin. now apply elem_of_elements.
  Qed.
End pointwise_fold.

Lemma clearing_loop_lookup (Q I : gset num) (l : list (num * DigitState))
    (acc : gmap num DigitState) j :
  fold_left (fun acc kv => if stale Q I kv then delete kv.1 acc else acc) l acc !! j
  = if existsb (fun kv => bool_decide (kv.1 = j) && stale Q I kv) l
    then None else acc !! j.
Proof.
  revert acc. induction l as [|[k st] l IH]; intros acc; [reflexivity|].
  simpl. rewrite IH.
  destruct (existsb _ l); [now rewrite orb_true_r|]. rewrite orb_false_r.
  destruct (stale Q I (k, st)); [|now rewrite andb_false_r].
  rewrite andb_true_r. simpl. rewrite lookup_delete.
  destruct (decide (k = j)) as [Hk|Hk].
  - now rewrite (bool_decide_eq_true_2 _ Hk).
  - now rewrite (bool_decide_eq_false_2 _ Hk).
Qed.

Lemma clearStale_lookup (Q I : gset num) (t : gmap num DigitState) j :
  clearStale Q I t !! j
  = clearEntry (bool_decide (j ∈ Q)) (bool_decide (j ∈ I)) (t !! j).
Proof.
  unfold clearStale. rewrite clearing_loop_lookup.
  destruct (existsb _ _) eqn:Hex.
  - apply existsb_exists in Hex as ([k st] & Hin & Hkv).
    apply andb_prop in Hkv as [Hk Hst]. apply bool_decide_eq_true_1 in Hk.
    simpl in Hk. subst k.
    apply list_elem_of_In, elem_of_map_to_list in Hin.
    rewrite Hin. unfold clearEntry. unfold stale in Hst. simpl in Hst.
    now rewrite Hst.
  - destruct (t !! j) as [st|] eqn:Hj; [|reflexivity].
    unfold clearEntry.
    destruct (_ && _ && _) eqn:Hst; [|reflexivity].
    exfalso. apply not_true_iff_false in Hex. apply Hex.
    apply existsb_exists. exists (j, st). split.
    + apply list_elem_of_In. now apply elem_of_map_to_list.
    + simpl. rewrite (bool_decide_eq_true_2 _ eq_refl). exact Hst.
Qed.

Lemma setQueue_lookup (I : gset num) k (t : gmap num DigitState) j :
  setQueue I k t !! j
  = if decide (j = k) then queueEntry (bool_decide (k ∈ I)) (t !! k) else t !! j.
Proof.
  unfold setQueue, queueEntry.
  destruct (decide (j = k)) as [->|Hne].
  - destruct (not_result (t !! k)); [|reflexivity].
    destruct (negb _); [|reflexivity]. apply lookup_insert_eq.
  - destruct (not_result (t !! k)); [|reflexivity].
    destruct (negb _); [|reflexivity]. now apply lookup_insert_ne.
Qed.

Lemma setInflight_lookup k (t : gmap num DigitState) j :
  setInflight k t !! j
  = if decide (j = k) then inflightEntry (t !! k) else t !! j.
Proof.
  unfold setInflight, inflightEntry.
  destruct (decide (j = k)) as [->|Hne].
  - destruct (not_result (t !! k)); [|reflexivity]. apply lookup_insert_eq.
  - destruct (not_result (t !! k)); [|reflexivity]. now apply lookup_insert_ne.
Qed.

(** The fields of the dashboard after [updateJobStates]. *)
Lemma updateJobStates_maxDigit Q I d :
  maxDigit (updateJobStates Q I d) = lmax (allIndices Q ++ allIndices I) (maxDigit d).
Proof.
  unfold updateJobStates. rewrite !collectDigits_spec. simpl. now rewrite lmax_app.
Qed.

Lemma updateJobStates_lookup Q I d j :
  digitStates (updateJobStates Q I d) !! j
  = reconcileEntry (bool_decide (j ∈ digitsOf Q)) (bool_decide (j ∈ digitsOf I))
      (digitStates d !! j).
Proof.
  unfold updateJobStates. rewrite !collectDigits_spec. simpl.
  rewrite (set_fold_pointwise _ (fun _ => inflightEntry))
    by (intros; apply setInflight_lookup).
  rewrite (set_fold_pointwise _ (fun k => queueEntry (bool_decide (k ∈ digitsOf I))))
    by (intros; apply setQueue_lookup).
  rewrite clearStale_lookup. unfold reconcileEntry.
  destruct (decide (j ∈ digitsOf I)) as [HI|HI];
    [rewrite (bool_decide_eq_true_2 _ HI)|rewrite (bool_decide_eq_false_2 _ HI)];
    (destruct (decide (j ∈ digitsOf Q)) as [HQ|HQ];
     [rewrite (bool_decide_eq_true_2 _ HQ)|rewrite (bool_decide_eq_false_2 _ HQ)]);
    reflexivity.
Qed.

Lemma updateJobStates_other Q I d :
  ws (updateJobStates Q I d) = ws d
  ∧ reconnectDelay (updateJobStates Q I d) = reconnectDelay d
  ∧ maxReconnectDelay (updateJobStates Q I d) = maxReconnectDelay d
  ∧ results (updateJobStates Q I d) = results d
  ∧ maxResults (updateJobStates Q I d) = maxResults d.
Proof.
  unfold updateJobStates.
  destruct (collectDigits Q (maxDigit d)) as [q m1].
  destruct (collectDigits I m1) as [i m2]. simpl. tauto.
Qed.

Lemma Dashboard_eq (d1 d2 : Dashboard) :
  ws d1 = ws d2 → reconnectDelay d1 = reconnectDelay d2 →
  maxReconnectDelay d1 = maxReconnectDelay d2 → results d1 = results d2 →
  maxResults d1 = maxResults d2 →
  (∀ j, digitStates d1 !! j = digitStates d2 !! j) →
  maxDigit d1 = maxDigit d2 → d1 = d2.
Proof.
  destruct d1, d2; simpl. intros -> -> -> -> -> Ht ->.
  f_equal. now apply map_eq.
Qed.

(** ** Job snapshots *)

Lemma reconcileEntry_result inQ inI st :
  state st = SResult → reconcileEntry inQ inI (Some st) = Some st.
Proof.
  destruct st as [tag v]. simpl. intros ->.
  destruct inQ, inI; reflexivity.
Qed.

Lemma reconcileEntry_idem inQ inI o :
  reconcileEntry inQ inI (reconcileEntry inQ inI o) = reconcileEntry inQ inI o.
Proof. destruct inQ, inI, o as [[[] v]|]; reflexivity. Qed.

(** C1. Once the table holds a result for an index, no sequence of later
    job snapshots, whatever their queued and inflight jobs, changes the
    entry of that index: neither its state nor its value. *)
Theorem result_is_sticky snaps d i st :
  digitStates d !! i = Some st →
  state st = SResult →
  digitStates (applySnapshots snaps d) !! i = Some st.
Proof.
  revert d. induction snaps as [|[Q I] snaps IH]; intros d Hi Hst; [exact Hi|].
  apply IH; [|exact Hst]. simpl.
  rewrite updateJobStates_lookup, Hi. now apply reconcileEntry_result.
Qed.

(** C4. Applying the same job snapshot twice in a row gives the dashboard
    that applying it once gives: same entries, same high-water mark. *)
Theorem updateJobStates_idempotent Q I d :
  updateJobStates Q I (updateJobStates Q I d) = updateJobStates Q I d.
Proof.
  destruct (updateJobStates_other Q I (updateJobStates Q I d))
    as (H1 & H2 & H3 & H4 & H5).
  apply Dashboard_eq; try assumption.
  - intros j. rewrite (updateJobStates_lookup Q I (updateJobStates Q I d)).
    rewrite updateJobStates_lookup. apply reconcileEntry_idem.
  - rewrite (updateJobStates_maxDigit Q I (updateJobStates Q I d)).
    rewrite updateJobStates_maxDigit. apply lmax_idem.
Qed.

(** C5. An index that is not in state result and that is both in the
    set that the snapshot collects from its queued jobs and in the set
    that it collects from its inflight jobs is in state inflight after
    the call. *)
Theorem inflight_has_priority Q I d i m m' :
  i ∈ (collectDigits Q m).1 →
  i ∈ (collectDigits I m').1 →
  not_result (digitStates d !! i) = true →
  digitStates (updateJobStates Q I d) !! i = Some (mkDigitState SInflight None).
Proof.
  rewrite !collectDigits_spec. simpl.
  intros HQ HI Hnr. rewrite updateJobStates_lookup.
  rewrite (bool_decide_eq_true_2 _ HQ), (bool_decide_eq_true_2 _ HI).
  unfold reconcileEntry, clearEntry, queueEntry, inflightEntry, not_result in *.
  destruct (digitStates d !! i) as [[[] v]|]; simpl in *;
    try reflexivity; discriminate.
Qed.

Lemma result_is_sticky_witness :
  let d := updateResultState (Some (hex_result "2" 0 1)) new_Dashboard in
  digitStates d !! Int 0 = Some (mkDigitState SResult (Some "2"))
  ∧ digitStates
      (applySnapshots [([bbp_job 0 4], []); ([], [bbp_job 0 2])] d) !! Int 0
    = Some (mkDigitState SResult (Some "2")).
Proof.
  split; [reflexivity|].
  apply (result_is_sticky _ _ (Int 0) (mkDigitState SResult (Some "2")));
    reflexivity.
Defined.

Lemma inflight_has_priority_witness :
  digitStates (updateJobStates [bbp_job 0 4] [bbp_job 2 4] new_Dashboard) !! Int 3
  = Some (mkDigitState SInflight None).
Proof.
  apply (inflight_has_priority [bbp_job 0 4] [bbp_job 2 4] new_Dashboard (Int 3)
           (Int (-1)) (Int 3)).
  - vm_compute. reflexivity.
  - vm_compute. reflexivity.
  - reflexivity.
Defined.

(** ** Jobs that the snapshot ignores *)

Lemma ignored_jobIndices job : ignored job = true → jobIndices job = [].
Proof.
  unfold ignored, jobIndices, recognized.
  destruct (payload job) as [p|]; [|reflexivity].
  destruct (bool_decide (p_type p = VStr "bbp_hex")); simpl; [|reflexivity].
  destruct (bool_decide (p_start p = VUndef)); simpl; [reflexivity|].
  destruct (bool_decide (p_count p = VUndef)); simpl; [reflexivity|].
  intros Hc. apply bool_decide_eq_true_1 in Hc. now rewrite Hc.
Qed.

Lemma allIndices_ignored before job after :
  ignored job = true →
  allIndices (before ++ job :: after) = allIndices (before ++ after).
Proof.
  intros Hj. unfold allIndices. rewrite !flat_map_app. simpl.
  now rewrite (ignored_jobIndices _ Hj).
Qed.

Lemma collectDigits_ext jobs jobs' m :
  allIndices jobs = allIndices jobs' →
  collectDigits jobs m = collectDigits jobs' m.
Proof.
  intros H. rewrite !collectDigits_spec. unfold digitsOf. now rewrite H.
Qed.

(** X23. A job wrapper whose payload is missing, whose payload type is
    not ["bbp_hex"], whose [start] or [count] is absent, or whose [count]
    does not parse to a number has no effect: the collecting loop leaves
    the set of digits and the high-water mark as they were, and the
    dashboard after the snapshot is the one that the same snapshot
    without this wrapper gives. *)
Theorem ignored_job_has_no_effect job :
  ignored job = true →
  (∀ acc, collectJob job acc = acc)
  ∧ (∀ before after others d,
       updateJobStates (before ++ job :: after) others d
       = updateJobStates (before ++ after) others d)
  ∧ (∀ before after others d,
       updateJobStates others (before ++ job :: after) d
       = updateJobStates others (before ++ after) d).
Proof.
  intros Hj. split; [|split].
  - intros [S0 m]. rewrite collectJob_spec.
    rewrite (ignored_jobIndices _ Hj). simpl. f_equal. apply (left_id_L ∅ (∪)).
  - intros before after others d. unfold updateJobStates.
    now rewrite (collectDigits_ext _ _ _ (allIndices_ignored before job after Hj)).
  - intros before after others d. unfold updateJobStates.
    destruct (collectDigits others (maxDigit d)) as [q m1].
    now rewrite (collectDigits_ext _ _ _ (allIndices_ignored before job after Hj)).
Qed.

Lemma ignored_job_has_no_effect_witness :
  let job := mkJob (Some (mkPayload (VStr "bbp_hex") (VNum 3) (VStr "many"))) in
  updateJobStates ([bbp_job 0 2] ++ job :: []) [] new_Dashboard
  = updateJobStates ([bbp_job 0 2] ++ []) [] new_Dashboard.
Proof.
  intros job.
  apply (proj1 (proj2 (ignored_job_has_no_effect job eq_refl))).
Defined.

(** C9. The code at a job whose [start] is present and not numeric, the
    wrapper [{ payload: { type: "bbp_hex", start: "x", count: 1 } }]:
    the guard tests [start] against [undefined] only, [parseInt] turns it
    into [NaN], and with [count = 1] the wrapper puts [NaN] in the queued
    set, the table of a new dashboard gets an entry for [NaN] and the
    high-water mark becomes [NaN], where the claim has no index, no
    entry and the mark unchanged. *)
Lemma non_numeric_start_has_effect :
  p_start <$> payload stray_job = Some (VStr "x")
  ∧ parseInt (VStr "x") = NaN
  ∧ collectJob stray_job (∅, Int (-1)) = ({[NaN]}, NaN)
  ∧ digitStates new_Dashboard !! NaN = None
  ∧ maxDigit new_Dashboard = Int (-1)
  ∧ digitStates (updateJobStates [stray_job] [] new_Dashboard) !! NaN
    = Some (mkDigitState SQueue None)
  ∧ maxDigit (updateJobStates [stray_job] [] new_Dashboard) = NaN.
Proof. repeat split; reflexivity. Qed.

(** ** Results *)

Lemma setResult_fold_other start hex l d :
  let d' := fold_left (setResult start hex) l d in
  ws d' = ws d ∧ reconnectDelay d' = reconnectDelay d
  ∧ maxReconnectDelay d' = maxReconnectDelay d
  ∧ results d' = results d ∧ maxResults d' = maxResults d.
Proof.
  revert d. induction l as [|i l IH]; intros d; simpl; [tauto|].
  destruct (IH (setResult start hex d i)) as (H1 & H2 & H3 & H4 & H5).
  simpl in *. tauto.
Qed.

Lemma setResult_fold_maxDigit start hex l d :
  maxDigit (fold_left (setResult start hex) l d)
  = lmax (map (add start) l) (maxDigit d).
Proof.
  revert d. induction l as [|i l IH]; intros d; simpl; [reflexivity|].
  now rewrite IH.
Qed.

Lemma lastWrite_snoc start k l i :
  lastWrite start k (l ++ [i])
  = if decide (add start i = k) then Some i else lastWrite start k l.
Proof. unfold lastWrite. now rewrite fold_left_app. Qed.

Lemma setResult_fold_lookup start hex l d k :
  digitStates (fold_left (setResult start hex) l d) !! k
  = match lastWrite start k l with
    | Some i => Some (mkDigitState SResult (Some (hex_at hex i)))
    | None => digitStates d !! k
    end.
Proof.
  induction l as [|i l IH] using rev_ind; [reflexivity|].
  rewrite lastWrite_snoc, fold_left_app. simpl.
  rewrite lookup_insert.
  destruct (decide (add start i = k)); [reflexivity|]. exact IH.
Qed.

Lemma lastWrite_Int s z l :
  lastWrite (Int s) (Int z) l
  = if decide ((z - s) ∈ l) then Some (z - s) else None.
Proof.
  induction l as [|i l IH] using rev_ind.
  - destruct (decide (z - s ∈ [])) as [Hin|]; [inversion Hin|reflexivity].
  - rewrite lastWrite_snoc, IH. simpl.
    destruct (decide (Int (s + i) = Int z)) as [Heq|Hne].
    + injection Heq as Heq. assert (i = z - s) as -> by lia.
      destruct (decide (z - s ∈ l ++ [z - s])) as [|Hn]; [reflexivity|].
      exfalso. apply Hn. apply elem_of_app. right. constructor.
    + assert (i ≠ z - s) by (intros ->; apply Hne; f_equal; lia).
      destruct (decide (z - s ∈ l)) as [Hin|Hnin];
        destruct (decide (z - s ∈ l ++ [i])) as [Hin'|Hnin']; try reflexivity.
      * exfalso. apply Hnin'. apply elem_of_app. now left.
      * exfalso. apply elem_of_app in Hin' as [?|Hin']; [contradiction|].
        apply list_elem_of_singleton in Hin'. congruence.
Qed.

Lemma lastWrite_Int_NaN s l : lastWrite (Int s) NaN l = None.
Proof.
  induction l as [|i l IH] using rev_ind; [reflexivity|].
  rewrite lastWrite_snoc. simpl. exact IH.
Qed.

Lemma elem_of_loop_range i n : i ∈ loop_range (Int n) ↔ 0 ≤ i < n.
Proof.
  unfold loop_range. rewrite list_elem_of_fmap. split.
  - intros (k & -> & Hk). apply elem_of_seq in Hk. lia.
  - intros Hi. exists (Z.to_nat i). split; [lia|]. apply elem_of_seq. lia.
Qed.

Lemma lmax_loop_range s n m :
  lmax (map (add (Int s)) (loop_range (Int n))) m
  = if 0 <? n then Math_max m (Int (s + n - 1)) else m.
Proof.
  unfold loop_range.
  destruct (0 <? n) eqn:Hn.
  - apply Z.ltb_lt in Hn.
    replace (s + n - 1) with (s + Z.of_nat (Nat.pred (Z.to_nat n))) by lia.
    assert (Z.to_nat n ≠ 0%nat) as HN by lia. revert HN.
    generalize (Z.to_nat n) as N. clear Hn. intros N. induction N as [|N IH]; [congruence|].
    intros _. rewrite seq_S, !map_app, lmax_app. simpl.
    destruct N as [|N'].
    + reflexivity.
    + rewrite IH by discriminate. simpl.
      rewrite <- Math_max_assoc. f_equal. simpl. f_equal. lia.
  - apply Z.ltb_ge in Hn. replace (Z.to_nat n) with 0%nat by lia. reflexivity.
Qed.

Lemma substring_one h n a :
  String.get n h = Some a → substring n 1 h = String a "".
Proof.
  revert n. induction h as [|c h IH]; intros n; simpl; [discriminate|].
  destruct n as [|n]; simpl.
  - intros [= ->]. now destruct h.
  - apply IH.
Qed.

Lemma get_below h n : (n < String.length h)%nat → ∃ a, String.get n h = Some a.
Proof.
  revert n. induction h as [|c h IH]; intros n; simpl; [lia|].
  destruct n as [|n]; [eauto|]. intros Hn. apply IH. lia.
Qed.

(** Re-applying a result changes nothing, whatever the result. *)
Lemma updateResultState_idempotent res d :
  updateResultState res (updateResultState res d) = updateResultState res d.
Proof.
  unfold updateResultState. destruct res as [r|]; [|reflexivity].
  destruct (result_present r); [|reflexivity].
  set (start := parseInt (r_start r)). set (hex := r_hex r).
  set (l := loop_range _).
  destruct (setResult_fold_other start hex l (fold_left (setResult start hex) l d))
    as (H1 & H2 & H3 & H4 & H5).
  apply Dashboard_eq; try assumption.
  - intros j. rewrite setResult_fold_lookup.
    destruct (lastWrite start j l) eqn:Hw; [|reflexivity].
    now rewrite setResult_fold_lookup, Hw.
  - rewrite !setResult_fold_maxDigit. apply lmax_idem.
Qed.

Lemma parseInt_VUndef : parseInt VUndef = NaN.
Proof. reflexivity. Qed.

(** C6, amended. For a result whose [hex] is a string and whose [start]
    and [count] parse to safe integers [s] and [c], with
    [s + min(c, hex.length)] safe as well, [updateResultState] sets index
    [s + i] to the result [hex[i]] for every [i] below
    [min(c, hex.length)], whatever the table held there, leaves the other
    indices alone, raises the high-water mark to the last index it wrote,
    and applying the same result again changes nothing. *)
Theorem updateResultState_spec r h s c d :
  r_hex r = VStr h →
  parseInt (r_start r) = Int s →
  parseInt (r_count r) = Int c →
  safe s = true →
  safe c = true →
  safe (s + Z.min c (Z.of_nat (String.length h))) = true →
  let n := Z.min c (Z.of_nat (String.length h)) in
  let d' := updateResultState (Some r) d in
  (∀ i, 0 ≤ i < n →
     ∃ a, String.get (Z.to_nat i) h = Some a
          ∧ digitStates d' !! Int (s + i) = Some (mkDigitState SResult (Some (String a ""))))
  ∧ (∀ k, (∀ i, 0 ≤ i < n → k ≠ Int (s + i)) → digitStates d' !! k = digitStates d !! k)
  ∧ maxDigit d' = (if 0 <? n then Math_max (maxDigit d) (Int (s + n - 1)) else maxDigit d)
  ∧ updateResultState (Some r) d' = d'.
Proof.
  intros Hh Hs Hc _ _ _ n d'.
  assert (Hd' : h ≠ "" →
    d' = fold_left (setResult (Int s) (VStr h)) (loop_range (Int n)) d).
  { intros Hne. unfold d', updateResultState, result_present.
    rewrite Hh, Hs, Hc. simpl.
    destruct (String.eqb_spec h ""); [contradiction|]. simpl.
    destruct (decide (r_start r = VUndef)) as [E|E];
      [rewrite E, parseInt_VUndef in Hs; discriminate|].
    destruct (decide (r_count r = VUndef)) as [E'|E'];
      [rewrite E', parseInt_VUndef in Hc; discriminate|].
    rewrite !bool_decide_eq_false_2 by assumption. reflexivity. }
  assert (Hempty : h = "" → d' = d ∧ n <= 0).
  { intros ->. split; [|simpl in n; lia].
    unfold d', updateResultState, result_present. now rewrite Hh. }
  split; [|split; [|split]].
  - intros i Hi. destruct (decide (h = "")) as [E|E]; [apply Hempty in E; lia|].
    destruct (get_below h (Z.to_nat i)) as [a Ha]; [lia|].
    exists a. split; [exact Ha|].
    rewrite (Hd' E), setResult_fold_lookup, lastWrite_Int.
    replace (s + i - s) with i by lia.
    destruct (decide (i ∈ loop_range (Int n))) as [|Hn].
    + simpl. now rewrite (substring_one _ _ _ Ha).
    + exfalso. apply Hn. now apply elem_of_loop_range.
  - intros k Hk. destruct (decide (h = "")) as [E|E];
      [now destruct (Hempty E) as [-> _]|].
    rewrite (Hd' E), setResult_fold_lookup.
    destruct k as [|z]; [now rewrite lastWrite_Int_NaN|].
    rewrite lastWrite_Int.
    destruct (decide (z - s ∈ loop_range (Int n))) as [Hin|]; [|reflexivity].
    apply elem_of_loop_range in Hin.
    exfalso. apply (Hk (z - s) Hin). f_equal. lia.
  - destruct (decide (h = "")) as [E|E].
    + destruct (Hempty E) as [-> Hn].
      destruct (0 <? n) eqn:H0; [apply Z.ltb_lt in H0; lia|reflexivity].
    + rewrite (Hd' E), setResult_fold_maxDigit. apply lmax_loop_range.
  - apply updateResultState_idempotent.
Qed.

Lemma updateResultState_spec_witness :
  let d := updateJobStates [bbp_job 0 4] [] new_Dashboard in
  digitStates d !! Int 1 = Some (mkDigitState SQueue None)
  ∧ digitStates (updateResultState (Some (hex_result "243f" 0 4)) d) !! Int (0 + 1)
    = Some (mkDigitState SResult (Some "4")).
Proof.
  intros d. split; [reflexivity|].
  destruct (updateResultState_spec (hex_result "243f" 0 4) "243f" 0 4 d
              eq_refl eq_refl eq_refl eq_refl eq_refl eq_refl) as (Hset & _).
  destruct (Hset 1 ltac:(simpl; lia)) as (a & Ha & Hlook).
  simpl in Ha. injection Ha as <-. exact Hlook.
Defined.

(** C6, as stated for every result with [hex], [start] and [count]
    present, fails on [stray_result], the result
    [{ hex: "ab", start: "x", count: 2 }]: the three fields are present
    and [min(count, hex.length)] is 2, but [parseInt] turns the start
    into [NaN], both iterations write the key [NaN], and the table ends
    with that one entry, holding ["b"]: no index holds the result ["a"]
    of [hex[0]], and the high-water mark is [NaN]. *)
Lemma non_numeric_start_is_stored_under_NaN :
  let d' := updateResultState (Some stray_result) new_Dashboard in
  result_present stray_result = true
  ∧ Math_min (parseInt (r_count stray_result)) (hex_length (r_hex stray_result)) = Int 2
  ∧ digitStates d' = {[ NaN := mkDigitState SResult (Some "b") ]}
  ∧ (∀ k, digitStates d' !! k ≠ Some (mkDigitState SResult (Some "a")))
  ∧ maxDigit d' = NaN.
Proof.
  intros d'.
  assert (Ht : digitStates d' = {[ NaN := mkDigitState SResult (Some "b") ]})
    by reflexivity.
  split; [reflexivity|]. split; [reflexivity|]. split; [exact Ht|].
  split; [|reflexivity].
  intros k. rewrite Ht. destruct (decide (k = NaN)) as [->|Hk].
  - rewrite lookup_singleton_eq. discriminate.
  - rewrite lookup_singleton_ne by congruence. discriminate.
Qed.

(** ** The result history *)

Lemma updateResultState_other res d :
  ws (updateResultState res d) = ws d
  ∧ reconnectDelay (updateResultState res d) = reconnectDelay d
  ∧ maxReconnectDelay (updateResultState res d) = maxReconnectDelay d
  ∧ results (updateResultState res d) = results d
  ∧ maxResults (updateResultState res d) = maxResults d.
Proof.
  unfold updateResultState. destruct res as [r|]; [|tauto].
  destruct (result_present r); [|tauto]. apply setResult_fold_other.
Qed.

Lemma addResult_results now data d :
  results (addResult now data d)
  = firstn (maxResults d) (recordOf now data :: results d).
Proof.
  unfold addResult.
  match goal with |- results (updateResultState ?r ?x) = _ =>
    destruct (updateResultState_other r x) as (_ & _ & _ & H & _) end.
  rewrite H. cbn [results set_results].
  destruct (Nat.ltb_spec (maxResults d) (length (recordOf now data :: results d)))
    as [Hlt|Hge]; [reflexivity|].
  symmetry. now apply firstn_all2.
Qed.

Lemma addResult_maxResults now data d :
  maxResults (addResult now data d) = maxResults d.
Proof.
  unfold addResult.
  match goal with |- maxResults (updateResultState ?r ?x) = _ =>
    destruct (updateResultState_other r x) as (_ & _ & _ & _ & H) end.
  now rewrite H.
Qed.

Lemma handleMessage_results now msg d :
  results (handleMessage now msg d)
  = firstn (maxResults d) (recordsOf [(now, msg)] ++ results d)
    ∨ (recordsOf [(now, msg)] = [] ∧ results (handleMessage now msg d) = results d).
Proof.
  destruct msg as [? ?|Q I|data|]; simpl.
  - now right.
  - right. split; [reflexivity|]. apply updateJobStates_other.
  - left. apply addResult_results.
  - now right.
Qed.

Lemma handleMessage_maxResults now msg d :
  maxResults (handleMessage now msg d) = maxResults d.
Proof.
  destruct msg as [? ?|Q I|data|]; simpl; try reflexivity.
  - apply updateJobStates_other.
  - apply addResult_maxResults.
Qed.

Lemma firstn_app_firstn {A : Type} (n : nat) (l1 l2 : list A) :
  firstn n (l1 ++ firstn n l2) = firstn n (l1 ++ l2).
Proof.
  rewrite !firstn_app, firstn_firstn. do 2 f_equal. lia.
Qed.

Lemma recordsOf_cons m msgs :
  recordsOf (m :: msgs) = recordsOf [m] ++ recordsOf msgs.
Proof. unfold recordsOf. simpl. now rewrite app_nil_r. Qed.

Lemma runMessages_results msgs d :
  (length (results d) ≤ maxResults d)%nat →
  results (runMessages msgs d)
  = firstn (maxResults d) (rev (recordsOf msgs) ++ results d).
Proof.
  revert d. induction msgs as [|[now msg] msgs IH]; intros d Hlen.
  - simpl. symmetry. now apply firstn_all2.
  - change (runMessages ((now, msg) :: msgs) d)
      with (runMessages msgs (handleMessage now msg d)).
    rewrite (recordsOf_cons (now, msg) msgs).
    rewrite rev_app_distr, <- app_assoc.
    assert (Hrev : rev (recordsOf [(now, msg)]) = recordsOf [(now, msg)]).
    { destruct msg; reflexivity. }
    rewrite Hrev.
    destruct (handleMessage_results now msg d) as [Hr|[Hnil Hr]].
    + rewrite IH.
      * rewrite handleMessage_maxResults, Hr. apply firstn_app_firstn.
      * rewrite handleMessage_maxResults, Hr. apply firstn_le_length.
    + rewrite IH.
      * now rewrite handleMessage_maxResults, Hr, Hnil.
      * now rewrite handleMessage_maxResults, Hr.
Qed.

(** C8. After any stream of messages from the start, the history holds
    the records of the result messages most recent first, cut to the 50
    latest; so it never has more than 50 entries, and after 60 results
    it holds exactly the 50 inserted last, most recent first. *)
Theorem history_is_bounded msgs :
  let history := results (runMessages msgs new_Dashboard) in
  history = firstn 50 (rev (recordsOf msgs))
  ∧ (length history ≤ 50)%nat
  ∧ (length (recordsOf msgs) = 60%nat → history = rev (skipn 10 (recordsOf msgs))).
Proof.
  intros history.
  assert (H : history = firstn 50 (rev (recordsOf msgs))).
  { unfold history. rewrite runMessages_results by (simpl; lia).
    simpl. now rewrite app_nil_r. }
  split; [exact H|]. split.
  - rewrite H. apply firstn_le_length.
  - intros H60. rewrite H, firstn_rev, H60. reflexivity.
Qed.

(** C10. A result message whose [result] lacks [hex], [start] or [count]
    is still recorded at the head of the history, where it takes one of
    the 50 places, and leaves the entries of the table and the
    high-water mark as they were. *)
Theorem incomplete_result_is_recorded now data d :
  maxResults d = 50%nat →
  missing_field (result data) = true →
  let d' := handleMessage now (result_message data) d in
  results d' = recordOf now data :: firstn 49 (results d)
  ∧ digitStates d' = digitStates d
  ∧ maxDigit d' = maxDigit d.
Proof.
  intros H50 Hmiss d'. split.
  - unfold d'. simpl. now rewrite addResult_results, H50.
  - unfold d'. simpl. unfold addResult.
    assert (Hskip : ∀ x, updateResultState (result data) x = x).
    { intros x. unfold updateResultState, missing_field, result_present in *.
      destruct (result data) as [r|]; [|reflexivity].
      destruct (decide (r_hex r = VUndef)) as [E|E].
      - now rewrite E.
      - rewrite (bool_decide_eq_false_2 _ E) in Hmiss. simpl in Hmiss.
        destruct (bool_decide (r_start r = VUndef));
          [now rewrite andb_false_r|].
        simpl in Hmiss. rewrite Hmiss. now rewrite andb_false_r. }
    rewrite Hskip. simpl. auto.
Qed.

Lemma incomplete_result_is_recorded_witness :
  let data := mkResultData (VNum 7) (Some (mkResultPayload VUndef (VNum 0) (VNum 4))) VUndef in
  let d := updateJobStates [bbp_job 0 4] [] new_Dashboard in
  let d' := handleMessage 1700000000 (result_message data) d in
  results d' = [recordOf 1700000000 data]
  ∧ digitStates d' = digitStates d
  ∧ maxDigit d' = maxDigit d.
Proof.
  intros data d.
  apply (incomplete_result_is_recorded 1700000000 data d); reflexivity.
Defined.

Lemma history_is_bounded_witness :
  let msgs :=
    map (fun n => (Z.of_nat n, result_message (mkResultData (VNum (Z.of_nat n)) None VUndef)))
      (seq 0 60) in
  results (runMessages msgs new_Dashboard) = rev (skipn 10 (recordsOf msgs)).
Proof.
  intros msgs.
  apply (proj2 (proj2 (history_is_bounded msgs))). reflexivity.
Defined.

(** ** Reconnecting *)

Lemma run_app e1 e2 d :
  run (e1 ++ e2) d
  = ((run e2 (run e1 d).1).1, (run e1 d).2 ++ (run e2 (run e1 d).1).2).
Proof.
  revert d. induction e1 as [|e e1 IH]; intros d; simpl.
  - now destruct (run e2 d).
  - destruct (handleEvent e d) as [d1 t1]. rewrite IH.
    destruct (run e1 d1) as [d2 t2]. simpl.
    destruct (run e2 d2) as [d3 t3]. simpl. now rewrite app_assoc.
Qed.

Lemma handleEvent_maxReconnectDelay e d :
  maxReconnectDelay (handleEvent e d).1 = maxReconnectDelay d.
Proof.
  destruct e as [| | |created]; simpl; try reflexivity.
  unfold reconnect. destruct (ws d) as [[]|]; try reflexivity.
  now destruct created.
Qed.

Lemma run_maxReconnectDelay events d :
  maxReconnectDelay (run events d).1 = maxReconnectDelay d.
Proof.
  revert d. induction events as [|e events IH]; intros d; simpl; [reflexivity|].
  pose proof (handleEvent_maxReconnectDelay e d) as He.
  destruct (handleEvent e d) as [d1 t1]. specialize (IH d1).
  destruct (run events d1) as [d2 t2]. simpl in *. congruence.
Qed.

Lemma backoff_next n :
  (1 ≤ n)%nat → Z.min (backoff n * 2) 30000 = backoff (S n).
Proof.
  intros Hn. unfold backoff.
  replace (Z.of_nat (S n) - 1) with (Z.succ (Z.of_nat n - 1)) by lia.
  rewrite Z.pow_succ_r by lia. lia.
Qed.

Lemma run_failures n k d :
  (1 ≤ k)%nat →
  maxReconnectDelay d = 30000 →
  reconnectDelay d = backoff k →
  (run (failures n) d).2 = map backoff (seq k n).
Proof.
  revert k d. induction n as [|n IH]; intros k d Hk Hmax Hdelay; [reflexivity|].
  change (failures (S n)) with (failure ++ failures n).
  rewrite run_app. simpl. f_equal; [exact Hdelay|].
  apply IH; simpl; [lia|exact Hmax|].
  rewrite Hmax, Hdelay. now apply backoff_next.
Qed.

(** C7. From a fresh session, the [n]-th reconnect attempt in a row of
    failed connections is scheduled with the delay
    [min(1000 * 2^(n-1), 30000)]; the first three delays are 1000, 2000
    and 4000; and after a successful open, whatever happened before, the
    failures that follow are scheduled from 1000 again. *)
Theorem backoff_sequence :
  (∀ n, (run (failures n) fresh_session).2
        = map (fun k => Z.min (1000 * 2 ^ (Z.of_nat k - 1)) 30000) (seq 1 n))
  ∧ (run (failures 3) fresh_session).2 = [1000; 2000; 4000]
  ∧ (∀ events n,
       (run (events ++ onopen :: failures n) fresh_session).2
       = (run events fresh_session).2
         ++ map (fun k => Z.min (1000 * 2 ^ (Z.of_nat k - 1)) 30000) (seq 1 n)).
Proof.
  split; [|split].
  - intros n. now apply run_failures.
  - reflexivity.
  - intros events n. rewrite run_app. simpl. f_equal.
    pose proof (run_maxReconnectDelay events fresh_session) as Hmax.
    destruct (run (failures n) _) as [d2 t2] eqn:Hrun. simpl.
    change t2 with (d2, t2).2. rewrite <- Hrun.
    apply (run_failures n 1); [lia| |reflexivity].
    simpl. exact Hmax.
Qed.

(** ** The contiguous prefix *)

Lemma joinPrefix_holes arr m : joinPrefix (arr ++ replicate m None) = joinPrefix arr.
Proof.
  induction arr as [|[v|] arr IH]; simpl.
  - now destruct m.
  - now rewrite IH.
  - reflexivity.
Qed.

Lemma collectHex_loop d N :
  ∃ m, map (resolvedAt d) (seq 0 N)
       = fold_left
           (fun hexArray i =>
              match resolved_value (digitStates d !! Int i) with
              | Some v => array_set (Z.to_nat i) v hexArray
              | None => hexArray
              end) (map Z.of_nat (seq 0 N)) [] ++ replicate m None.
Proof.
  induction N as [|N [m IH]]; [now exists 0%nat|].
  rewrite !seq_S, !map_app, fold_left_app. simpl.
  set (arr := fold_left _ _ _) in *.
  assert (Hlen : (length arr + m = N)%nat).
  { apply (f_equal length) in IH.
    rewrite length_map, length_seq, length_app, length_replicate in IH. lia. }
  unfold resolvedAt at 2.
  destruct (resolved_value _) as [v|].
  - exists 0%nat. unfold array_set. rewrite Nat2Z.id.
    destruct (Nat.ltb_spec N (length arr)) as [Hlt|Hge]; [lia|].
    replace (N - length arr)%nat with m by lia.
    rewrite IH. simpl. now rewrite app_nil_r, <- app_assoc.
  - exists (S m). rewrite IH, <- app_assoc. f_equal.
    change [None] with (replicate 1 (@None string)).
    rewrite <- replicate_add. f_equal. lia.
Qed.

Lemma getAllHexDigits_full d h :
  maxDigit d = Int h →
  getAllHexDigits d = joinPrefix (map (resolvedAt d) (seq 0 (Z.to_nat (h + 1)))).
Proof.
  intros Hh. unfold getAllHexDigits, collectHex, loop_range_le. rewrite Hh.
  destruct (collectHex_loop d (Z.to_nat (h + 1))) as [m ->].
  now rewrite joinPrefix_holes.
Qed.


Lemma table_ok_spec d :
  table_ok d = true →
  ∃ h, maxDigit d = Int h
       ∧ ∀ z st, digitStates d !! Int z = Some st →
           z ≤ h ∧ (state st = SResult → ∃ v, value st = Some v ∧ v ≠ "").
Proof.
  unfold table_ok. destruct (maxDigit d) as [|h]; [discriminate|].
  intros Hall. exists h. split; [reflexivity|].
  intros z st Hz. rewrite forallb_forall in Hall.
  specialize (Hall (Int z, st)).
  unfold entry_ok in Hall. simpl in Hall.
  apply andb_prop in Hall as [Hle Hval].
  - split; [now apply Z.leb_le|].
    intros Hst. rewrite Hst in Hval.
    destruct (value st) as [v|]; [|discriminate].
    exists v. split; [reflexivity|].
    intros ->. discriminate.
  - apply list_elem_of_In. now apply elem_of_map_to_list.
Qed.





(** ** The invariant holds on the tables that numeric messages build *)

Lemma table_ok_intro d h :
  maxDigit d = Int h →
  (∀ z st, digitStates d !! Int z = Some st →
     z ≤ h ∧ (state st = SResult → ∃ v, value st = Some v ∧ v ≠ "")) →
  table_ok d = true.
Proof.
  intros Hh Hent. unfold table_ok. rewrite Hh.
  apply forallb_forall. intros [k st] Hin.
  apply list_elem_of_In, elem_of_map_to_list in Hin.
  unfold entry_ok. simpl. destruct k as [|z]; [reflexivity|].
  destruct (Hent z st Hin) as [Hle Hval].
  apply andb_true_intro. split; [now apply Z.leb_le|].
  destruct (state st) eqn:Hst; try reflexivity.
  destruct (Hval eq_refl) as (v & -> & Hne).
  now destruct (String.eqb_spec v "").
Qed.

Lemma lmax_numeric l h :
  NaN ∉ l →
  ∃ h', lmax l (Int h) = Int h' ∧ h ≤ h' ∧ ∀ z, Int z ∈ l → z ≤ h'.
Proof.
  revert h. induction l as [|k l IH]; intros h Hnan.
  - exists h. split; [reflexivity|]. split; [lia|]. intros z Hz. inversion Hz.
  - destruct k as [|x]; [exfalso; apply Hnan; constructor|].
    destruct (IH (Z.max h x)) as (h' & Hl & Hle & Hall).
    { intros Hin. apply Hnan. now constructor. }
    exists h'. split; [exact Hl|]. split; [lia|].
    intros z Hz. apply elem_of_cons in Hz as [[= ->]|Hz]; [lia|now apply Hall].
Qed.

Lemma reconcileEntry_cases inQ inI o st :
  reconcileEntry inQ inI o = Some st →
  o = Some st ∨ (state st ≠ SResult ∧ (inQ = true ∨ inI = true)).
Proof.
  destruct inQ, inI, o as [[[] v]|]; simpl; intros [= <-]; simpl;
    first [now left | right; split; [discriminate|auto]].
Qed.

Lemma updateJobStates_table_ok Q I d :
  NaN ∉ allIndices Q ++ allIndices I →
  table_ok d = true →
  table_ok (updateJobStates Q I d) = true.
Proof.
  intros Hnum Hok. destruct (table_ok_spec d Hok) as (h & Hh & Hent).
  destruct (lmax_numeric _ h Hnum) as (h' & Hmax & Hle & Hall).
  apply (table_ok_intro _ h').
  - now rewrite updateJobStates_maxDigit, Hh.
  - intros z st. rewrite updateJobStates_lookup. intros Hst.
    apply reconcileEntry_cases in Hst as [Hold|[Hnr Hin]].
    + destruct (Hent z st Hold) as [Hz Hv]. split; [lia|exact Hv].
    + split; [|intros Hr; contradiction].
      apply Hall. apply elem_of_app.
      destruct Hin as [Hin|Hin]; apply bool_decide_eq_true_1 in Hin;
        apply elem_of_list_to_set in Hin; auto.
Qed.

Lemma hex_at_nonempty hex i :
  i ∈ loop_range (hex_length hex) → hex_at hex i ≠ "".
Proof.
  destruct hex as [| | | |s|]; simpl;
    try (intros Hnil; inversion Hnil; fail).
  intros Hin. apply elem_of_loop_range in Hin.
  destruct (get_below s (Z.to_nat i)) as [a Ha]; [lia|].
  now rewrite (substring_one _ _ _ Ha).
Qed.

Lemma loop_range_Math_min a b i :
  i ∈ loop_range (Math_min a b) → i ∈ loop_range b.
Proof.
  destruct a as [|x], b as [|y]; simpl;
    try (intros Hnil; inversion Hnil; fail).
  fold (loop_range (Int (x `min` y))). fold (loop_range (Int y)).
  rewrite !elem_of_loop_range. lia.
Qed.

Lemma updateResultState_table_ok res d :
  NaN ∉ resultIndices res →
  table_ok d = true →
  table_ok (updateResultState res d) = true.
Proof.
  intros Hnum Hok. destruct (table_ok_spec d Hok) as (h & Hh & Hent).
  unfold updateResultState, resultIndices in *.
  destruct res as [r|]; [|exact Hok].
  destruct (result_present r); [|exact Hok].
  set (start := parseInt (r_start r)) in *. set (hex := r_hex r) in *.
  set (l := loop_range _) in *.
  destruct (lmax_numeric _ h Hnum) as (h' & Hmax & Hle & Hall).
  apply (table_ok_intro _ h').
  - now rewrite setResult_fold_maxDigit, Hh.
  - intros z st. rewrite setResult_fold_lookup.
    destruct (lastWrite start (Int z) l) as [i|] eqn:Hw.
    + intros [= <-]. simpl.
      assert (Hi : i ∈ l ∧ add start i = Int z).
      { clear -Hw. induction l as [|x l IH] using rev_ind; [discriminate|].
        rewrite lastWrite_snoc in Hw.
        destruct (decide (add start x = Int z)) as [E|E].
        - injection Hw as <-. split; [|exact E].
          apply elem_of_app. right. constructor.
        - destruct (IH Hw) as [Hin Hz]. split; [|exact Hz].
          apply elem_of_app. now left. }
      destruct Hi as [Hil Hiz]. split.
      * apply Hall. rewrite <- Hiz. apply list_elem_of_fmap. eauto.
      * intros _. exists (hex_at hex i). split; [reflexivity|].
        apply hex_at_nonempty. unfold l in Hil.
        now apply loop_range_Math_min in Hil.
    + intros Hold. destruct (Hent z st Hold) as [Hz Hv]. split; [lia|exact Hv].
Qed.

(** Every table that a stream of numeric messages builds from the start
    satisfies the invariant. *)
Lemma runMessages_table_ok msgs :
  Forall (fun m => numeric m.2) msgs →
  table_ok (runMessages msgs new_Dashboard) = true.
Proof.
  assert (H : ∀ d, table_ok d = true → Forall (fun m => numeric m.2) msgs →
                   table_ok (runMessages msgs d) = true).
  { induction msgs as [|[now msg] msgs IH]; intros d Hok Hnum; [exact Hok|].
    apply Forall_cons in Hnum as [Hm Hnum]. simpl in Hm.
    apply IH; [|exact Hnum]. simpl.
    destruct msg as [? ?|Q I|data|]; simpl; try exact Hok.
    - now apply updateJobStates_table_ok.
    - unfold addResult. now apply updateResultState_table_ok. }
  intros Hnum. now apply H.
Qed.

Lemma add_Int_not_NaN s (l : list Z) : NaN ∉ map (add (Int s)) l.
Proof.
  intros Hin. apply list_elem_of_fmap in Hin as (i & Hi & _). discriminate.
Qed.

Lemma jobIndices_number job :
  job_start_is_number job = true → NaN ∉ jobIndices job.
Proof.
  unfold job_start_is_number, jobIndices.
  destruct (payload job) as [p|]; [|intros _ Hin; inversion Hin].
  destruct (p_start p) as [| | |z| |]; try discriminate. intros Hz.
  destruct (recognized p); [|intros Hin; inversion Hin].
  rewrite (parseInt_VNum z Hz). apply add_Int_not_NaN.
Qed.

Lemma allIndices_number jobs :
  forallb job_start_is_number jobs = true → NaN ∉ allIndices jobs.
Proof.
  induction jobs as [|job jobs IH]; simpl; [intros _ Hin; inversion Hin|].
  intros Hall. apply andb_prop in Hall as [Hjob Hall].
  unfold allIndices. simpl. intros Hin. apply elem_of_app in Hin as [Hin|Hin].
  - now apply (jobIndices_number job Hjob).
  - now apply (IH Hall).
Qed.

(** Messages that give every [start] as a number are numeric. *)
Lemma starts_are_numbers_numeric msg :
  starts_are_numbers msg = true → numeric msg.
Proof.
  unfold numeric. destruct msg as [? ?|Q I|data|]; simpl;
    try (intros _ Hin; inversion Hin; fail).
  - intros Hall. fold (allIndices (Q ++ I)).
    unfold allIndices. rewrite <- flat_map_app. now apply allIndices_number.
  - unfold resultIndices. destruct (result data) as [r|]; [|intros _ Hin; inversion Hin].
    destruct (r_start r) as [| | |z| |]; try discriminate. intros Hz.
    destruct (result_present r); [|intros Hin; inversion Hin].
    rewrite (parseInt_VNum z Hz). apply add_Int_not_NaN.
Qed.

(** In particular the tables built by messages that give every [start]
    as a JSON number, a safe integer. *)
Lemma number_stream_table_ok msgs :
  forallb (fun m => starts_are_numbers m.2) msgs = true →
  table_ok (runMessages msgs new_Dashboard) = true.
Proof.
  intros Hall. apply runMessages_table_ok. apply Forall_forall.
  intros m Hm. apply starts_are_numbers_numeric.
  rewrite forallb_forall in Hall. apply Hall. now apply list_elem_of_In.
Qed.

(** With a high-water mark that is [NaN] the first loop of
    [getAllHexDigits] does not run. *)
Lemma getAllHexDigits_NaN d : maxDigit d = NaN → getAllHexDigits d = "".
Proof. intros H. unfold getAllHexDigits, collectHex. now rewrite H. Qed.

(** ** The decimal conversion *)

Lemma append_assoc (s1 s2 s3 : string) : (s1 +:+ s2) +:+ s3 = s1 +:+ (s2 +:+ s3).
Proof.
  induction s1 as [|a s1 IH]; [reflexivity|].
  change (String a ((s1 +:+ s2) +:+ s3) = String a (s1 +:+ (s2 +:+ s3))).
  now rewrite IH.
Qed.

Lemma append_empty_r (s : string) : s +:+ "" = s.
Proof.
  induction s as [|a s IH]; [reflexivity|].
  change (String a (s +:+ "") = String a s). now rewrite IH.
Qed.

Lemma upper_hex_digit a :
  is_hex_digit a = true →
  parseInt_string (String (upper a) "") 16 = Int (hexDigitValue a).
Proof.
  destruct a as [[] [] [] [] [] [] [] []]; vm_compute; congruence.
Qed.

Lemma length_toUpperCase s : String.length (toUpperCase s) = String.length s.
Proof. induction s as [|a s IH]; simpl; [reflexivity|now rewrite IH]. Qed.

Lemma readNumerator_hex h acc :
  hex_string h = true →
  readNumerator (toUpperCase h) acc
  = Some (acc * 16 ^ Z.of_nat (String.length h) + hexValue h).
Proof.
  revert acc. induction h as [|a h IH]; intros acc Hh.
  - simpl. f_equal. lia.
  - simpl in Hh. apply andb_prop in Hh as [Ha Hh].
    cbn [toUpperCase readNumerator]. rewrite (upper_hex_digit a Ha), (IH _ Hh).
    f_equal. cbn [String.length hexValue].
    rewrite Nat2Z.inj_succ, Z.pow_succ_r by lia. lia.
Qed.

Lemma readDenominator_pow s : readDenominator s = 16 ^ Z.of_nat (String.length s).
Proof.
  unfold readDenominator. generalize (String.length s) as n. intros n.
  induction n as [|n IH]; [reflexivity|].
  rewrite seq_S, fold_left_app, IH. simpl.
  rewrite Nat2Z.inj_succ, Z.pow_succ_r by lia. lia.
Qed.

Lemma hexDigitValue_bound a : 0 ≤ hexDigitValue a < 16.
Proof.
  destruct a as [[] [] [] [] [] [] [] []]; vm_compute; split; congruence.
Qed.

Lemma hexValue_bound h : 0 ≤ hexValue h < 16 ^ Z.of_nat (String.length h).
Proof.
  induction h as [|a h IH]; [simpl; lia|].
  cbn [hexValue String.length].
  rewrite Nat2Z.inj_succ, Z.pow_succ_r by lia.
  pose proof (hexDigitValue_bound a). nia.
Qed.

Lemma BigInt_toString_digit v :
  0 ≤ v < 10 → BigInt_toString v = String (digitChar v) "".
Proof.
  intros Hv.
  assert (v = 0 ∨ v = 1 ∨ v = 2 ∨ v = 3 ∨ v = 4 ∨ v = 5 ∨ v = 6 ∨ v = 7
          ∨ v = 8 ∨ v = 9) as Hcases by lia.
  repeat (destruct Hcases as [->|Hcases]; [reflexivity|]). now subst.
Qed.

(** One step of long division: the next digit and the next remainder. *)
Lemma long_division_step n D j :
  0 < D → 0 ≤ n →
  Z.quot (remainderAfter n D j * 10) D = decimalDigit n D (S j)
  ∧ Z.rem (remainderAfter n D j * 10) D = remainderAfter n D (S j)
  ∧ 0 ≤ decimalDigit n D (S j) < 10.
Proof.
  intros HD Hn. unfold remainderAfter, decimalDigit.
  rewrite Nat2Z.inj_succ, Z.pow_succ_r by lia.
  set (x := n * 10 ^ Z.of_nat j).
  assert (Hx : 0 ≤ x) by (unfold x; apply Z.mul_nonneg_nonneg; [lia|apply Z.pow_nonneg; lia]).
  replace (n * (10 * 10 ^ Z.of_nat j)) with (x * 10) by (unfold x; lia).
  pose proof (Z.mod_pos_bound x D HD) as Hr.
  pose proof (Z.div_mod x D ltac:(lia)) as Hdm.
  rewrite Z.quot_div_nonneg, Z.rem_mod_nonneg by lia.
  assert (Hq : x * 10 / D = x / D * 10 + x mod D * 10 / D).
  { rewrite Hdm at 1.
    replace ((D * (x / D) + x mod D) * 10) with (x / D * 10 * D + x mod D * 10) by lia.
    rewrite Z.div_add_l by lia. reflexivity. }
  assert (Hd : 0 ≤ x mod D * 10 / D < 10).
  { split; [apply Z.div_pos; lia|]. apply Z.div_lt_upper_bound; lia. }
  split; [|split].
  - rewrite Hq. rewrite Z.add_comm, Z.mod_add by lia.
    symmetry. apply Z.mod_small. exact Hd.
  - rewrite (Z.mul_comm (x mod D)), (Z.mul_comm x).
    now rewrite Z.mul_mod_idemp_r by lia.
  - apply Z.mod_pos_bound. lia.
Qed.

(** The digit loop from the remainder after [j] digits: it emits the
    digits [j+1 .. j+k], where [k] is the fuel unless the remainder
    becomes zero before. *)
Lemma decimalLoop_spec n D fuel j acc :
  0 < D → 0 ≤ n →
  ∃ k : nat,
    (k ≤ fuel)%nat ∧ ((1 ≤ fuel)%nat → (1 ≤ k)%nat)
    ∧ decimalLoop fuel D (remainderAfter n D j) acc
      = acc +:+ digitsString (map (decimalDigit n D) (seq (S j) k))
    ∧ (∀ i, (j < i < j + k)%nat → remainderAfter n D i ≠ 0)
    ∧ ((k < fuel)%nat → remainderAfter n D (j + k) = 0).
Proof.
  intros HD Hn. revert j acc. induction fuel as [|fuel IH]; intros j acc.
  - exists 0%nat. split; [lia|]. split; [lia|]. split.
    + change (acc = acc +:+ ""). now rewrite append_empty_r.
    + split; [intros i Hi; lia|lia].
  - destruct (long_division_step n D j HD Hn) as (Hq & Hr & Hd).
    cbn [decimalLoop]. rewrite Hq, Hr, (BigInt_toString_digit _ Hd).
    destruct (Z.eqb_spec (remainderAfter n D (S j)) 0) as [Hz|Hnz].
    + exists 1%nat. split; [lia|]. split; [lia|]. split; [reflexivity|].
      split; [intros i Hi; lia|]. intros _. now rewrite Nat.add_1_r.
    + destruct (IH (S j) (acc +:+ String (digitChar (decimalDigit n D (S j))) ""))
        as (k & Hk & _ & Hloop & Hnonzero & Hstop).
      exists (S k). split; [lia|]. split; [lia|]. split; [|split].
      * rewrite Hloop, append_assoc. f_equal.
      * intros i Hi. destruct (decide (i = S j)) as [->|]; [exact Hnz|].
        apply Hnonzero. lia.
      * intros Hlt. replace (j + S k)%nat with (S j + k)%nat by lia.
        apply Hstop. lia.
Qed.

Lemma hexFractionToDecimal_hex h M :
  hex_string h = true →
  String.length h ≠ 0%nat →
  hexFractionToDecimal h M
  = Some (decimalLoop (Z.to_nat (Z.min (Z.of_nat (String.length h)) M))
            (16 ^ Z.of_nat (String.length h)) (hexValue h) "3.").
Proof.
  intros Hh Hlen. unfold hexFractionToDecimal.
  destruct (Nat.eqb_spec (String.length h) 0) as [He|_]; [contradiction|].
  rewrite (readNumerator_hex h 0 Hh), readDenominator_pow, length_toUpperCase.
  now rewrite Z.mul_0_l, Z.add_0_l.
Qed.

(** C2. For a string [h] of [L] hex digits and [M ≥ 1],
    [hexFractionToDecimal] returns ["3."] when [L = 0]; otherwise it
    returns ["3."] followed by the first [k] digits of the decimal
    expansion of [h / 16^L], where [k] is [min(L, M)] unless the
    remainder becomes zero after fewer digits, in which case [k] is the
    first such number of digits. For ["8"] it returns ["3.5"]. *)
Theorem hexFractionToDecimal_exact (h : string) (M : Z) :
  1 ≤ M →
  hex_string h = true →
  let L := Z.of_nat (String.length h) in
  let n := hexValue h in
  let D := 16 ^ L in
  (L = 0 → hexFractionToDecimal h M = Some "3.")
  ∧ (0 < L →
     ∃ k : nat,
       1 ≤ Z.of_nat k ≤ Z.min L M
       ∧ hexFractionToDecimal h M
         = Some ("3." +:+ digitsString (map (decimalDigit n D) (seq 1 k)))
       ∧ (∀ j, (1 ≤ j < k)%nat → remainderAfter n D j ≠ 0)
       ∧ (Z.of_nat k < Z.min L M → remainderAfter n D k = 0))
  ∧ hexFractionToDecimal "8" M = Some "3.5".
Proof.
  intros HM Hh L n D. split; [|split].
  - intros HL. unfold hexFractionToDecimal.
    destruct (Nat.eqb_spec (String.length h) 0) as [|Hne]; [reflexivity|].
    unfold L in HL. lia.
  - intros HL. rewrite (hexFractionToDecimal_hex h M Hh) by (unfold L in HL; lia).
    fold L. fold D. fold n.
    pose proof (hexValue_bound h) as Hn. fold L in Hn. fold n in Hn. fold D in Hn.
    assert (HD : 0 < D) by (unfold D; apply Z.pow_pos_nonneg; lia).
    destruct (decimalLoop_spec n D (Z.to_nat (Z.min L M)) 0 "3." HD ltac:(lia))
      as (k & Hk & Hk1 & Hloop & Hnonzero & Hstop).
    assert (Hstart : remainderAfter n D 0 = n).
    { unfold remainderAfter. rewrite Z.mul_1_r. apply Z.mod_small. lia. }
    rewrite Hstart in Hloop.
    exists k. split; [lia|]. split; [now rewrite Hloop|]. split.
    + intros j Hj. apply Hnonzero. lia.
    + intros Hlt. apply Hstop. lia.
  - unfold hexFractionToDecimal. simpl String.length. simpl Nat.eqb. cbv iota.
    replace (Z.min (Z.of_nat 1) M) with 1 by lia. reflexivity.
Qed.

Lemma hexFractionToDecimal_exact_witness :
  hexFractionToDecimal "243f" 1000
  = Some ("3." +:+ digitsString
            (map (decimalDigit (hexValue "243f") (16 ^ 4)) (seq 1 4)))
  ∧ hexFractionToDecimal "243f" 1000 = Some "3.1415".
Proof.
  split; [|reflexivity].
  destruct (hexFractionToDecimal_exact "243f" 1000 ltac:(lia) eq_refl)
    as (_ & Hpos & _).
  destruct (Hpos ltac:(simpl; lia)) as (k & Hk & Hout & _ & Hstop).
  assert (k = 4%nat) as ->; [|exact Hout].
  simpl in Hk.
  assert (k = 1 ∨ k = 2 ∨ k = 3 ∨ k = 4)%nat as Hcases by lia.
  destruct Hcases as [-> | [-> | [-> | ->]]]; try reflexivity;
    exfalso; specialize (Hstop ltac:(simpl; lia)); vm_compute in Hstop; discriminate.
Defined.

(** ** A session from end to end *)

(** A snapshot queues the digits 0 to 3, the result ["243f"] resolves
    them, the prefix is ["243f"] and its decimal rendering starts with
    3.1415. *)
Example end_to_end :
  let d1 := handleMessage 0 (job_update [bbp_job 0 4] []) new_Dashboard in
  let d2 :=
    handleMessage 1
      (result_message (mkResultData (VStr "job-1") (Some (hex_result "243f" 0 4)) VUndef))
      d1 in
  map (fun i => state <$> digitStates d1 !! Int i) [0; 1; 2; 3; 4]
  = [Some SQueue; Some SQueue; Some SQueue; Some SQueue; None]
  ∧ map (fun i => digitStates d2 !! Int i) [0; 1; 2; 3]
    = map (fun v => Some (mkDigitState SResult (Some v))) ["2"; "4"; "3"; "f"]%string
  ∧ maxDigit d2 = Int 3
  ∧ getAllHexDigits d2 = "243f"%string
  ∧ hexFractionToDecimal (getAllHexDigits d2) (maxDecimalDigits 4) = Some "3.1415"%string.
Proof. repeat split; reflexivity. Qed.

(** For 100 hex digits [renderPiDecimal] asks for 1000 decimal digits. *)
Example digit_budget : maxDecimalDigits 100 = 1000.
Proof. reflexivity. Qed.

(** * Further properties of the dashboard *)

(** ** Reconciliation against a snapshot *)

Lemma lmax_start l m : Math_max m (lmax l m) = lmax l m.
Proof. rewrite <- lmax_Math_max. now rewrite Math_max_idem. Qed.

Lemma lmax_join l1 l2 m : lmax l2 (lmax l1 m) = Math_max (lmax l1 m) (lmax l2 m).
Proof.
  rewrite <- (lmax_start l1 m) at 1.
  rewrite (Math_max_comm m), lmax_Math_max. reflexivity.
Qed.

Lemma lmax_perm l l' m : l ≡ₚ l' → lmax l m = lmax l' m.
Proof.
  intros Hp. revert m. induction Hp as [|x l l' _ IH|x y l|l l' l'' _ IH1 _ IH2];
    intros m; simpl.
  - reflexivity.
  - apply IH.
  - f_equal. rewrite <- !Math_max_assoc. f_equal. apply Math_max_comm.
  - now rewrite IH1.
Qed.

Lemma allIndices_perm jobs jobs' : jobs ≡ₚ jobs' → allIndices jobs ≡ₚ allIndices jobs'.
Proof.
  unfold allIndices. induction 1 as [|x l l' _ IH|x y l|l l' l'' _ IH1 _ IH2]; simpl.
  - reflexivity.
  - now rewrite IH.
  - rewrite !app_assoc. f_equiv. apply Permutation_app_comm.
  - now rewrite IH1.
Qed.

Lemma collectDigits_perm jobs jobs' m :
  jobs ≡ₚ jobs' → collectDigits jobs m = collectDigits jobs' m.
Proof.
  intros Hp. apply allIndices_perm in Hp. rewrite !collectDigits_spec. f_equal.
  - unfold digitsOf. apply set_eq. intros k. rewrite !elem_of_list_to_set.
    now rewrite Hp.
  - now apply lmax_perm.
Qed.

(** X1. A snapshot is a full reconciliation: an index that holds no
    result is, after the call, inflight when the inflight jobs cover it,
    queued when only the queued jobs cover it, and without entry
    otherwise, whatever entry it had before. *)
Theorem snapshot_reconciles Q I d i :
  let queueDigits := (collectDigits Q (maxDigit d)).1 in
  let inflightDigits := (collectDigits I (collectDigits Q (maxDigit d)).2).1 in
  not_result (digitStates d !! i) = true →
  digitStates (updateJobStates Q I d) !! i
  = if decide (i ∈ inflightDigits) then Some (mkDigitState SInflight None)
    else if decide (i ∈ queueDigits) then Some (mkDigitState SQueue None)
    else None.
Proof.
  intros queueDigits inflightDigits Hnr. unfold queueDigits, inflightDigits.
  rewrite !collectDigits_spec. simpl. rewrite updateJobStates_lookup.
  destruct (decide (i ∈ digitsOf I)) as [HI|HI];
    [rewrite (bool_decide_eq_true_2 _ HI)|rewrite (bool_decide_eq_false_2 _ HI)];
    (destruct (decide (i ∈ digitsOf Q)) as [HQ|HQ];
     [rewrite (bool_decide_eq_true_2 _ HQ)|rewrite (bool_decide_eq_false_2 _ HQ)]);
    unfold not_result in Hnr;
    destruct (digitStates d !! i) as [[[] v]|]; simpl in *;
    try reflexivity; discriminate.
Qed.

Lemma snapshot_reconciles_witness :
  let d := updateJobStates [bbp_job 0 6] [] new_Dashboard in
  digitStates d !! Int 5 = Some (mkDigitState SQueue None)
  ∧ digitStates (updateJobStates [bbp_job 0 2] [bbp_job 2 2] d) !! Int 5 = None
  ∧ digitStates (updateJobStates [bbp_job 0 2] [bbp_job 2 2] d) !! Int 3
    = Some (mkDigitState SInflight None).
Proof.
  intros d. split; [reflexivity|]. split.
  - apply (snapshot_reconciles [bbp_job 0 2] [bbp_job 2 2] d (Int 5)). reflexivity.
  - apply (snapshot_reconciles [bbp_job 0 2] [bbp_job 2 2] d (Int 3)). reflexivity.
Defined.

Lemma reconcileEntry_last q1 i1 q2 i2 o :
  reconcileEntry q2 i2 (reconcileEntry q1 i1 o) = reconcileEntry q2 i2 o.
Proof. destruct q1, i1, q2, i2, o as [[[] v]|]; reflexivity. Qed.

(** X2. The last snapshot wins: after two snapshots in a row the entries
    of the table are those that the second snapshot alone gives, and the
    high-water mark is the larger of the marks that each gives. *)
Theorem last_snapshot_wins Q1 I1 Q2 I2 d :
  digitStates (updateJobStates Q2 I2 (updateJobStates Q1 I1 d))
  = digitStates (updateJobStates Q2 I2 d)
  ∧ maxDigit (updateJobStates Q2 I2 (updateJobStates Q1 I1 d))
    = Math_max (maxDigit (updateJobStates Q1 I1 d)) (maxDigit (updateJobStates Q2 I2 d)).
Proof.
  split.
  - apply map_eq. intros j.
    rewrite (updateJobStates_lookup Q2 I2 (updateJobStates Q1 I1 d)).
    rewrite !updateJobStates_lookup. apply reconcileEntry_last.
  - rewrite (updateJobStates_maxDigit Q2 I2 (updateJobStates Q1 I1 d)).
    rewrite !updateJobStates_maxDigit. apply lmax_join.
Qed.

(** X3. Neither the order of the jobs in the two lists of a snapshot nor
    the order in which overlapping jobs are listed matters: permuting
    the queued jobs and the inflight jobs gives the same dashboard. *)
Theorem job_order_is_irrelevant Q Q' I I' d :
  Q ≡ₚ Q' → I ≡ₚ I' →
  updateJobStates Q I d = updateJobStates Q' I' d.
Proof.
  intros HQ HI. unfold updateJobStates.
  rewrite (collectDigits_perm Q Q' _ HQ).
  destruct (collectDigits Q' (maxDigit d)) as [q m1].
  now rewrite (collectDigits_perm I I' _ HI).
Qed.

Lemma job_order_is_irrelevant_witness :
  updateJobStates [bbp_job 0 4; bbp_job 2 4] [bbp_job 9 1; bbp_job 3 2] new_Dashboard
  = updateJobStates [bbp_job 2 4; bbp_job 0 4] [bbp_job 3 2; bbp_job 9 1] new_Dashboard.
Proof.
  apply job_order_is_irrelevant; apply Permutation_swap.
Defined.

(** ** The high-water mark and the shape of the table *)

Lemma updateResultState_maxDigit res d :
  maxDigit (updateResultState res d) = lmax (resultIndices res) (maxDigit d).
Proof.
  unfold updateResultState, resultIndices. destruct res as [r|]; [|reflexivity].
  destruct (result_present r); [|reflexivity]. apply setResult_fold_maxDigit.
Qed.

Lemma handleMessage_maxDigit now msg d :
  maxDigit (handleMessage now msg d) = lmax (messageIndices msg) (maxDigit d).
Proof.
  destruct msg as [? ?|Q I|data|]; simpl; try reflexivity.
  - apply updateJobStates_maxDigit.
  - unfold addResult. now rewrite updateResultState_maxDigit.
Qed.

Lemma runMessages_maxDigit msgs d :
  Math_max (maxDigit d) (maxDigit (runMessages msgs d)) = maxDigit (runMessages msgs d).
Proof.
  revert d. induction msgs as [|[now msg] msgs IH]; intros d.
  - apply Math_max_idem.
  - change (runMessages ((now, msg) :: msgs) d)
      with (runMessages msgs (handleMessage now msg d)).
    rewrite <- (IH (handleMessage now msg d)), Math_max_assoc. f_equal.
    rewrite handleMessage_maxDigit. apply lmax_start.
Qed.

(** X4. The high-water mark never goes down: over any stream of
    messages, the mark at the end is the maximum of itself and the mark
    at the start; so a numeric mark only grows, and a mark that has
    become [NaN] stays [NaN]. *)
Theorem maxDigit_never_decreases msgs d :
  Math_max (maxDigit d) (maxDigit (runMessages msgs d)) = maxDigit (runMessages msgs d)
  ∧ (∀ h h', maxDigit d = Int h → maxDigit (runMessages msgs d) = Int h' → h ≤ h')
  ∧ (maxDigit d = NaN → maxDigit (runMessages msgs d) = NaN).
Proof.
  pose proof (runMessages_maxDigit msgs d) as H.
  split; [exact H|]. split.
  - intros h h' Hh Hh'. rewrite Hh, Hh' in H. simpl in H. injection H as H. lia.
  - intros Hnan. rewrite Hnan in H. simpl in H. now rewrite <- H.
Qed.

Lemma maxDigit_never_decreases_witness :
  let d := updateResultState (Some (mkResultPayload (VStr "ab") (VStr "x") (VNum 2)))
             new_Dashboard in
  maxDigit d = NaN
  ∧ maxDigit (runMessages [(0, job_update [bbp_job 0 4] [])] d) = NaN.
Proof.
  intros d. split; [reflexivity|].
  apply (proj2 (proj2 (maxDigit_never_decreases [(0, job_update [bbp_job 0 4] [])] d))).
  reflexivity.
Defined.

Lemma reconcileEntry_fresh inQ inI o st :
  reconcileEntry inQ inI o = Some st →
  o = Some st ∨ ((st = mkDigitState SQueue None ∨ st = mkDigitState SInflight None)
                 ∧ (inQ = true ∨ inI = true)).
Proof.
  destruct inQ, inI, o as [[[] v]|]; simpl; intros [= <-]; auto.
Qed.

Lemma lastWrite_Some start k l i :
  lastWrite start k l = Some i → i ∈ l ∧ add start i = k.
Proof.
  induction l as [|x l IH] using rev_ind; [discriminate|].
  rewrite lastWrite_snoc.
  destruct (decide (add start x = k)) as [E|E].
  - intros [= <-]. split; [|exact E]. apply elem_of_app. right. constructor.
  - intros Hw. destruct (IH Hw) as [Hin Hz]. split; [|exact Hz].
    apply elem_of_app. now left.
Qed.

Lemma lastWrite_None start k l :
  lastWrite start k l = None → k ∉ map (add start) l.
Proof.
  induction l as [|x l IH] using rev_ind; [intros _ Hin; inversion Hin|].
  rewrite lastWrite_snoc, map_app.
  destruct (decide (add start x = k)) as [E|E]; [discriminate|].
  intros Hw Hin. apply elem_of_app in Hin as [Hin|Hin]; [now apply IH|].
  apply list_elem_of_singleton in Hin. congruence.
Qed.

Lemma updateJobStates_table_shape Q I d :
  NaN ∉ allIndices Q ++ allIndices I →
  table_shape d → table_shape (updateJobStates Q I d).
Proof.
  intros Hnum (h & Hh1 & Hh & Hent).
  destruct (lmax_numeric _ h Hnum) as (h' & Hmax & Hle & Hall).
  exists h'. split; [lia|]. split; [now rewrite updateJobStates_maxDigit, Hh|].
  intros k st. rewrite updateJobStates_lookup. intros Hst.
  apply reconcileEntry_fresh in Hst as [Hold|[Hnew Hin]].
  - destruct (Hent k st Hold) as [(z & -> & Hz) Hv]. split; [|exact Hv].
    exists z. split; [reflexivity|lia].
  - assert (Hk : k ∈ allIndices Q ++ allIndices I).
    { apply elem_of_app.
      destruct Hin as [Hin|Hin]; apply bool_decide_eq_true_1 in Hin;
        apply elem_of_list_to_set in Hin; auto. }
    split.
    + destruct k as [|z]; [contradiction|]. exists z. split; [reflexivity|].
      now apply Hall.
    + destruct Hnew as [-> | ->]; reflexivity.
Qed.

Lemma updateResultState_table_shape res d :
  NaN ∉ resultIndices res →
  table_shape d → table_shape (updateResultState res d).
Proof.
  intros Hnum (h & Hh1 & Hh & Hent).
  destruct (lmax_numeric _ h Hnum) as (h' & Hmax & Hle & Hall).
  exists h'. split; [lia|]. split; [now rewrite updateResultState_maxDigit, Hh|].
  unfold updateResultState, resultIndices in *.
  destruct res as [r|];
    [|intros k st Hst; destruct (Hent k st Hst) as [(z & -> & Hz) Hv];
      split; [exists z; split; [reflexivity|lia]|exact Hv]].
  destruct (result_present r);
    [|intros k st Hst; destruct (Hent k st Hst) as [(z & -> & Hz) Hv];
      split; [exists z; split; [reflexivity|lia]|exact Hv]].
  set (start := parseInt (r_start r)) in *. set (hex := r_hex r) in *.
  set (l := loop_range _) in *.
  intros k st. rewrite setResult_fold_lookup.
  destruct (lastWrite start k l) as [i|] eqn:Hw.
  - intros [= <-]. simpl. apply lastWrite_Some in Hw as [Hil Hik].
    assert (Hk : k ∈ map (add start) l) by (rewrite <- Hik; apply list_elem_of_fmap; eauto).
    split.
    + destruct k as [|z]; [contradiction|]. exists z. split; [reflexivity|].
      now apply Hall.
    + unfold l in Hil. apply loop_range_Math_min in Hil.
      destruct hex as [| | | |s|]; simpl in Hil; try (inversion Hil; fail).
      apply elem_of_loop_range in Hil.
      destruct (get_below s (Z.to_nat i)) as [a Ha]; [lia|].
      exists a. simpl. now rewrite (substring_one _ _ _ Ha).
  - intros Hst. destruct (Hent k st Hst) as [(z & -> & Hz) Hv]. split; [|exact Hv].
    exists z. split; [reflexivity|lia].
Qed.

(** X5. After any stream of messages that give every [start] as a JSON
    number, a safe integer, and every [hex] as a string, the high-water
    mark is a number, at least -1; every index of the table is an
    integer at most the mark; an entry in state result holds one
    character, and an entry in state queue or inflight holds no value. *)
Theorem numbers_keep_table_shape msgs :
  forallb (fun m => starts_are_numbers m.2) msgs = true →
  forallb (fun m => hex_is_string m.2) msgs = true →
  table_shape (runMessages msgs new_Dashboard).
Proof.
  intros Hall _.
  assert (H0 : table_shape new_Dashboard).
  { exists (-1). split; [lia|]. split; [reflexivity|].
    intros k st Hst. change (digitStates new_Dashboard) with (∅ : gmap num DigitState) in Hst.
    rewrite lookup_empty in Hst. discriminate. }
  revert H0. generalize new_Dashboard as d.
  induction msgs as [|[now msg] msgs IH]; intros d Hd; [exact Hd|].
  simpl in Hall. apply andb_prop in Hall as [Hm Hall].
  apply (IH Hall). apply starts_are_numbers_numeric in Hm. unfold numeric in Hm.
  destruct msg as [? ?|Q I|data|]; simpl; try exact Hd.
  - now apply updateJobStates_table_shape.
  - unfold addResult. apply updateResultState_table_shape; [exact Hm|].
    destruct Hd as (h & H1 & H2 & H3). exists h. auto.
Qed.

Lemma numbers_keep_table_shape_witness :
  table_shape
    (runMessages
       [(0, job_update [bbp_job 0 8] [bbp_job 8 2]);
        (1, result_message (mkResultData (VNum 1) (Some (hex_result "243f" 0 4)) VUndef))]
       new_Dashboard).
Proof. apply numbers_keep_table_shape; reflexivity. Defined.

(** ** Results and snapshots in any order *)

Lemma updateResultState_lookup res d k :
  digitStates (updateResultState res d) !! k
  = match writtenValue res k with
    | Some v => Some (mkDigitState SResult (Some v))
    | None => digitStates d !! k
    end.
Proof.
  unfold updateResultState, writtenValue. destruct res as [r|]; [|reflexivity].
  destruct (result_present r); [|reflexivity].
  rewrite setResult_fold_lookup. now destruct (lastWrite _ _ _).
Qed.

Lemma writtenValue_Some res k v :
  writtenValue res k = Some v → k ∈ resultIndices res.
Proof.
  unfold writtenValue, resultIndices. destruct res as [r|]; [|discriminate].
  destruct (result_present r); [|discriminate].
  destruct (lastWrite _ _ _) as [i|] eqn:Hw; [|discriminate]. intros _.
  apply lastWrite_Some in Hw as [Hin <-]. apply list_elem_of_fmap. eauto.
Qed.

Lemma lmax_swap l1 l2 m : lmax l1 (lmax l2 m) = lmax l2 (lmax l1 m).
Proof.
  rewrite <- !lmax_app. apply lmax_perm. apply Permutation_app_comm.
Qed.

(** X6. A result message and a job snapshot commute: the dashboard is
    the same whichever of the two arrives first. *)
Theorem result_and_snapshot_commute now now' data Q I d :
  handleMessage now (result_message data) (handleMessage now' (job_update Q I) d)
  = handleMessage now' (job_update Q I) (handleMessage now (result_message data) d).
Proof.
  simpl. unfold addResult.
  set (kept := fun d0 : Dashboard =>
    if (maxResults d0 <? length (recordOf now data :: results d0))%nat
    then firstn (maxResults d0) (recordOf now data :: results d0)
    else recordOf now data :: results d0).
  change (updateResultState (result data)
            (set_results (kept (updateJobStates Q I d)) (updateJobStates Q I d))
          = updateJobStates Q I
              (updateResultState (result data) (set_results (kept d) d))).
  destruct (updateJobStates_other Q I d) as (J1 & J2 & J3 & J4 & J5).
  assert (Hkept : kept (updateJobStates Q I d) = kept d)
    by (unfold kept; now rewrite J4, J5).
  rewrite Hkept.
  destruct (updateResultState_other (result data)
              (set_results (kept d) (updateJobStates Q I d))) as (R1 & R2 & R3 & R4 & R5).
  destruct (updateResultState_other (result data) (set_results (kept d) d))
    as (S1 & S2 & S3 & S4 & S5).
  destruct (updateJobStates_other Q I
              (updateResultState (result data) (set_results (kept d) d)))
    as (T1 & T2 & T3 & T4 & T5).
  apply Dashboard_eq.
  - rewrite R1, T1, S1. exact J1.
  - rewrite R2, T2, S2. exact J2.
  - rewrite R3, T3, S3. exact J3.
  - rewrite R4, T4, S4. reflexivity.
  - rewrite R5, T5, S5. exact J5.
  - intros j. rewrite updateResultState_lookup, updateJobStates_lookup.
    rewrite updateResultState_lookup. simpl digitStates.
    rewrite updateJobStates_lookup.
    destruct (writtenValue (result data) j) as [v|]; [|reflexivity].
    symmetry. now apply reconcileEntry_result.
  - rewrite updateResultState_maxDigit, updateJobStates_maxDigit.
    rewrite updateResultState_maxDigit. simpl maxDigit.
    rewrite updateJobStates_maxDigit. apply lmax_swap.
Qed.

(** X7. Two results whose index ranges do not overlap commute: applying
    them in either order gives the same dashboard. *)
Theorem disjoint_results_commute res1 res2 d :
  disjoint_results res1 res2 = true →
  updateResultState res1 (updateResultState res2 d)
  = updateResultState res2 (updateResultState res1 d).
Proof.
  intros Hdis.
  destruct (updateResultState_other res1 (updateResultState res2 d)) as (A1 & A2 & A3 & A4 & A5).
  destruct (updateResultState_other res2 (updateResultState res1 d)) as (B1 & B2 & B3 & B4 & B5).
  destruct (updateResultState_other res1 d) as (C1 & C2 & C3 & C4 & C5).
  destruct (updateResultState_other res2 d) as (D1 & D2 & D3 & D4 & D5).
  apply Dashboard_eq; try congruence.
  - intros j. rewrite !updateResultState_lookup.
    destruct (writtenValue res1 j) as [v1|] eqn:H1;
      destruct (writtenValue res2 j) as [v2|] eqn:H2; try reflexivity.
    exfalso. apply writtenValue_Some in H1, H2.
    unfold disjoint_results in Hdis. rewrite forallb_forall in Hdis.
    specialize (Hdis j (proj1 (list_elem_of_In _ _) H1)).
    apply negb_true_iff, bool_decide_eq_false_1 in Hdis. contradiction.
  - rewrite !updateResultState_maxDigit. apply lmax_swap.
Qed.

Lemma disjoint_results_commute_witness :
  updateResultState (Some (hex_result "24" 0 2))
    (updateResultState (Some (hex_result "6a" 3 2)) new_Dashboard)
  = updateResultState (Some (hex_result "6a" 3 2))
      (updateResultState (Some (hex_result "24" 0 2)) new_Dashboard).
Proof. apply disjoint_results_commute. reflexivity. Defined.

(** ** From a result to the prefix *)

Lemma substring_zero s n : substring n 0 s = "".
Proof.
  revert n. induction s as [|c s IH]; intros [|n]; simpl; try reflexivity. apply IH.
Qed.

Lemma substring_split s a n :
  substring a (S n) s = substring a 1 s +:+ substring (S a) n s.
Proof.
  revert a. induction s as [|c s IH]; intros a.
  - now destruct a.
  - destruct a as [|a].
    + change (String c (substring 0 n s)
              = String c (substring 0 0 s) +:+ substring 0 n s).
      now rewrite substring_zero.
    + change (substring a (S n) s = substring a 1 s +:+ substring (S a) n s).
      apply IH.
Qed.

Lemma joinPrefix_substrings s a n :
  joinPrefix (map (fun i => Some (substring i 1 s)) (seq a n)) = substring a n s.
Proof.
  revert a. induction n as [|n IH]; intros a.
  - simpl. now rewrite substring_zero.
  - simpl. rewrite IH. symmetry. apply substring_split.
Qed.

Lemma getAllHexDigits_gap_at_0 d :
  resolvedAt d 0 = None → getAllHexDigits d = "".
Proof.
  intros H0. destruct (maxDigit d) as [|h] eqn:Hh; [now apply getAllHexDigits_NaN|].
  rewrite (getAllHexDigits_full d h Hh).
  destruct (Z.to_nat (h + 1)) as [|n]; [reflexivity|].
  simpl. now rewrite H0.
Qed.

Lemma hex_result_present h s c :
  result_present (hex_result h s c) = negb (String.eqb h "").
Proof.
  unfold result_present, hex_result. cbn [r_hex r_start r_count truthy].
  rewrite !bool_decide_eq_false_2 by discriminate.
  now rewrite !andb_true_r.
Qed.

Lemma writtenValue_hex_result h s c k :
  safe s = true →
  safe c = true →
  writtenValue (Some (hex_result h s c)) k
  = if String.eqb h "" then None
    else hex_at (VStr h)
         <$> lastWrite (Int s) k
               (loop_range (Int (Z.min c (Z.of_nat (String.length h))))).
Proof.
  intros Hs Hc. unfold writtenValue. rewrite hex_result_present.
  unfold hex_result. cbn [r_hex r_start r_count].
  rewrite (parseInt_VNum s Hs), (parseInt_VNum c Hc).
  now destruct (String.eqb h "").
Qed.

Lemma resultIndices_hex_result h s c :
  safe s = true →
  safe c = true →
  resultIndices (Some (hex_result h s c))
  = if String.eqb h "" then []
    else map (add (Int s)) (loop_range (Int (Z.min c (Z.of_nat (String.length h))))).
Proof.
  intros Hs Hc. unfold resultIndices. rewrite hex_result_present.
  unfold hex_result. cbn [r_hex r_start r_count].
  rewrite (parseInt_VNum s Hs), (parseInt_VNum c Hc).
  now destruct (String.eqb h "").
Qed.

(** X8. Results are read back as the prefix. On a new dashboard, a
    result whose [hex] is the string [h] and whose [start] and [count]
    are the numbers [s] and [c], safe integers with [min(c, h.length)]
    at most 10^6 and [s + min(c, h.length)] safe as well, makes
    [getAllHexDigits] return the first [min(c, h.length)] characters of
    [h] when [s] is 0, and the empty string when [s] is past 0. *)
Theorem result_read_back (h : string) (s c : Z) :
  safe s = true →
  safe c = true →
  Z.min c (Z.of_nat (String.length h)) ≤ 1000000 →
  safe (s + Z.min c (Z.of_nat (String.length h))) = true →
  let d := updateResultState (Some (hex_result h s c)) new_Dashboard in
  (s = 0 →
   getAllHexDigits d = substring 0 (Z.to_nat (Z.min c (Z.of_nat (String.length h)))) h)
  ∧ (1 ≤ s → getAllHexDigits d = "").
Proof.
  intros Hsafe_s Hsafe_c _ _ d.
  set (n := Z.min c (Z.of_nat (String.length h))).
  assert (Hlook : ∀ z, digitStates d !! Int z
            = if decide (h ≠ "" ∧ 0 ≤ z - s < n)
              then Some (mkDigitState SResult (Some (substring (Z.to_nat (z - s)) 1 h)))
              else None).
  { intros z. unfold d.
    rewrite updateResultState_lookup, writtenValue_hex_result by assumption.
    fold n.
    destruct (decide (h ≠ "" ∧ 0 ≤ z - s < n)) as [[Hne Hr]|Hnr].
    - destruct (String.eqb_spec h ""); [contradiction|].
      rewrite lastWrite_Int.
      destruct (decide (z - s ∈ loop_range (Int n))) as [Hin|Hnin]; [reflexivity|].
      exfalso. apply Hnin. now apply elem_of_loop_range.
    - destruct (String.eqb_spec h "") as [He|Hne]; [reflexivity|].
      rewrite lastWrite_Int.
      destruct (decide (z - s ∈ loop_range (Int n))) as [Hin|Hnin]; [|reflexivity].
      exfalso. apply Hnr. split; [exact Hne|]. now apply elem_of_loop_range. }
  assert (Hmax : maxDigit d = if decide (h ≠ "" ∧ 0 < n)
                              then Math_max (Int (-1)) (Int (s + n - 1)) else Int (-1)).
  { unfold d.
    rewrite updateResultState_maxDigit, resultIndices_hex_result by assumption.
    fold n.
    destruct (decide (h ≠ "" ∧ 0 < n)) as [[Hne Hr]|Hnr].
    - destruct (String.eqb_spec h ""); [contradiction|].
      rewrite lmax_loop_range. destruct (Z.ltb_spec 0 n); [reflexivity|lia].
    - destruct (String.eqb_spec h "") as [He|Hne]; [reflexivity|].
      rewrite lmax_loop_range. destruct (Z.ltb_spec 0 n); [|reflexivity].
      exfalso. apply Hnr. split; [exact Hne|lia]. }
  clearbody d. split.
  - intros ->. destruct (decide (h ≠ "" ∧ 0 < n)) as [[Hne Hn]|Hn].
    + simpl in Hmax. rewrite (getAllHexDigits_full d (Z.max (-1) (0 + n - 1)) Hmax).
      replace (Z.to_nat (Z.max (-1) (0 + n - 1) + 1)) with (Z.to_nat n) by lia.
      rewrite <- joinPrefix_substrings. f_equal. apply map_ext_in.
      intros i Hi. apply in_seq in Hi. unfold resolvedAt. rewrite Hlook.
      destruct (decide (h ≠ "" ∧ 0 ≤ Z.of_nat i - 0 < n)) as [_|Hc];
        [|exfalso; apply Hc; split; [exact Hne|lia]].
      replace (Z.to_nat (Z.of_nat i - 0)) with i by lia.
      destruct (get_below h i) as [a Ha]; [unfold n in Hn, Hi; lia|].
      now rewrite (substring_one _ _ _ Ha).
    + rewrite getAllHexDigits_gap_at_0.
      * assert (Hz : h = "" ∨ n ≤ 0).
        { destruct (decide (h = "")); [now left|right].
          destruct (Z.ltb_spec 0 n); [|lia]. exfalso. apply Hn. split; assumption. }
        destruct Hz as [->|Hz]; [now destruct (Z.to_nat n)|].
        replace (Z.to_nat n) with 0%nat by lia. now rewrite substring_zero.
      * unfold resolvedAt. rewrite Hlook.
        destruct (decide (h ≠ "" ∧ 0 ≤ Z.of_nat 0 - 0 < n)) as [[Hne Hr]|_];
          [|reflexivity].
        exfalso. apply Hn. split; [exact Hne|lia].
  - intros Hs. apply getAllHexDigits_gap_at_0. unfold resolvedAt. rewrite Hlook.
    destruct (decide (h ≠ "" ∧ 0 ≤ Z.of_nat 0 - s < n)) as [[_ Hr]|_];
      [|reflexivity].
    simpl in Hr. lia.
Qed.

Lemma result_read_back_witness :
  getAllHexDigits (updateResultState (Some (hex_result "243f6a" 0 4)) new_Dashboard)
  = "243f"
  ∧ getAllHexDigits (updateResultState (Some (hex_result "243f6a" 2 4)) new_Dashboard)
    = "".
Proof.
  split.
  - apply (proj1 (result_read_back "243f6a" 0 4 eq_refl eq_refl
                    ltac:(simpl; lia) eq_refl)). reflexivity.
  - apply (proj2 (result_read_back "243f6a" 2 4 eq_refl eq_refl
                    ltac:(simpl; lia) eq_refl)). lia.
Defined.

(** ** More on the decimal conversion *)

Lemma upper_non_hex_digit a :
  is_hex_digit a = false → parseInt_string (String (upper a) "") 16 = NaN.
Proof.
  destruct a as [[] [] [] [] [] [] [] []]; vm_compute; congruence.
Qed.

Lemma readNumerator_non_hex h acc :
  hex_string h = false → readNumerator (toUpperCase h) acc = None.
Proof.
  revert acc. induction h as [|a h IH]; intros acc; [discriminate|].
  cbn [hex_string toUpperCase readNumerator].
  destruct (is_hex_digit a) eqn:Ha; simpl.
  - intros Hh. rewrite (upper_hex_digit a Ha). now apply IH.
  - intros _. now rewrite (upper_non_hex_digit a Ha).
Qed.

(** X9. [hexFractionToDecimal] throws exactly when its string contains a
    character that is not a hex digit; on a string of hex digits, the
    empty one included, it returns a string. *)
Theorem hexFractionToDecimal_throws h M :
  hexFractionToDecimal h M = None ↔ hex_string h = false.
Proof.
  split.
  - intros Hnone. destruct (hex_string h) eqn:Hh; [|reflexivity].
    destruct (Nat.eq_dec (String.length h) 0%nat) as [Hl|Hl].
    + unfold hexFractionToDecimal in Hnone. rewrite Hl in Hnone. discriminate.
    + rewrite (hexFractionToDecimal_hex h M Hh Hl) in Hnone. discriminate.
  - intros Hh. unfold hexFractionToDecimal.
    destruct (Nat.eqb_spec (String.length h) 0) as [Hl|Hl].
    + destruct h; [discriminate|simpl in Hl; lia].
    + now rewrite (readNumerator_non_hex h 0 Hh).
Qed.

Lemma decimalLoop_extends fuel D cur acc :
  ∃ extra, decimalLoop fuel D cur acc = acc +:+ extra.
Proof.
  revert cur acc. induction fuel as [|fuel IH]; intros cur acc.
  - exists "". now rewrite append_empty_r.
  - cbn [decimalLoop].
    destruct (Z.eqb_spec (Z.rem (cur * 10) D) 0) as [_|_]; [eauto|].
    destruct (IH (Z.rem (cur * 10) D)
                (acc +:+ BigInt_toString (Z.quot (cur * 10) D))) as [extra ->].
    rewrite append_assoc. eauto.
Qed.

Lemma decimalLoop_more fuel more D cur acc :
  ∃ extra, decimalLoop (fuel + more) D cur acc = decimalLoop fuel D cur acc +:+ extra.
Proof.
  revert cur acc. induction fuel as [|fuel IH]; intros cur acc.
  - apply decimalLoop_extends.
  - cbn [Nat.add decimalLoop].
    destruct (Z.eqb_spec (Z.rem (cur * 10) D) 0) as [_|_]; [|apply IH].
    exists "". now rewrite append_empty_r.
Qed.

(** X10. A larger digit budget only appends digits: on a string of hex
    digits, the output for [M] is the beginning of the output for any
    [M' ≥ M]. *)
Theorem larger_budget_extends h M M' :
  hex_string h = true →
  M ≤ M' →
  ∃ out extra,
    hexFractionToDecimal h M = Some out
    ∧ hexFractionToDecimal h M' = Some (out +:+ extra).
Proof.
  intros Hh HM. destruct (Nat.eq_dec (String.length h) 0%nat) as [Hl|Hl].
  - exists "3.", "". unfold hexFractionToDecimal. rewrite Hl. simpl. auto.
  - rewrite !(hexFractionToDecimal_hex h _ Hh Hl).
    set (L := Z.of_nat (String.length h)).
    replace (Z.to_nat (Z.min L M'))
      with (Z.to_nat (Z.min L M) + (Z.to_nat (Z.min L M') - Z.to_nat (Z.min L M)))%nat
      by lia.
    destruct (decimalLoop_more (Z.to_nat (Z.min L M))
                (Z.to_nat (Z.min L M') - Z.to_nat (Z.min L M))
                (16 ^ L) (hexValue h) "3.") as [extra Hex].
    eexists. exists extra. split; [reflexivity|]. now rewrite Hex.
Qed.

Lemma larger_budget_extends_witness :
  ∃ out extra,
    hexFractionToDecimal "243f6a88" 3 = Some out
    ∧ hexFractionToDecimal "243f6a88" 8 = Some (out +:+ extra).
Proof. apply larger_budget_extends; [reflexivity|lia]. Defined.

(** X11. The budget that [renderPiDecimal] computes never binds below
    10000 digits: for a string of any length [L], the conversion with
    the budget [maxDecimalDigits L] is the conversion with the budget
    10000, so the factor 1.5 and the floor of 1000 have no effect. *)
Theorem render_budget_is_10000 h :
  hexFractionToDecimal h (maxDecimalDigits (Z.of_nat (String.length h)))
  = hexFractionToDecimal h 10000.
Proof.
  unfold hexFractionToDecimal. rewrite length_toUpperCase.
  set (L := Z.of_nat (String.length h)).
  assert (HL : 0 ≤ L) by (unfold L; lia).
  assert (Hmin : Z.min L (maxDecimalDigits L) = Z.min L 10000).
  { unfold maxDecimalDigits.
    assert (L ≤ (L * 3 + 1) / 2) by (apply Z.div_le_lower_bound; lia).
    assert (10000 < L → 10000 ≤ (L * 3 + 1) / 2) by lia.
    lia. }
  now rewrite Hmin.
Qed.

Lemma horner_decimal_digits n D k :
  0 ≤ n < D →
  fold_left (fun a x => a * 10 + x) (map (decimalDigit n D) (seq 1 k)) 0
  = n * 10 ^ Z.of_nat k / D.
Proof.
  intros Hn. assert (HD : 0 < D) by lia. induction k as [|k IH].
  - simpl. rewrite Z.mul_1_r. symmetry. now apply Z.div_small.
  - rewrite seq_S, map_app, fold_left_app, IH. simpl.
    unfold decimalDigit.
    replace (Z.of_nat (S k)) with (Z.succ (Z.of_nat k)) by lia.
    rewrite Z.pow_succ_r by lia.
    set (x := n * 10 ^ Z.of_nat k).
    replace (n * (10 * 10 ^ Z.of_nat k)) with (x * 10) by (unfold x; lia).
    assert (Hx : 0 ≤ x)
      by (unfold x; apply Z.mul_nonneg_nonneg; [lia|apply Z.pow_nonneg; lia]).
    assert (Hdd : x * 10 / D / 10 = x / D).
    { rewrite Z.div_div by lia. rewrite (Z.mul_comm D 10).
      rewrite <- Z.div_div by lia. now rewrite Z.div_mul by lia. }
    pose proof (Z.div_mod (x * 10 / D) 10 ltac:(lia)) as Hdm.
    rewrite Hdd in Hdm. lia.
Qed.

(** X12. The digits are a truncation, never a rounding: for a non-empty
    string of hex digits and [M ≥ 1], the output is ["3."] followed by
    [k] decimal digits whose value [v], read as an integer, satisfies
    [v / 10^k ≤ h / 16^L < (v + 1) / 10^k]. *)
Theorem digits_truncate (h : string) (M : Z) :
  1 ≤ M →
  hex_string h = true →
  h ≠ "" →
  let n := hexValue h in
  let D := 16 ^ Z.of_nat (String.length h) in
  ∃ digits : list Z,
    hexFractionToDecimal h M = Some ("3." +:+ digitsString digits)
    ∧ Forall (fun x => 0 ≤ x ≤ 9) digits
    ∧ (1 ≤ length digits)%nat
    ∧ let k := Z.of_nat (length digits) in
      let v := fold_left (fun a x => a * 10 + x) digits 0 in
      v * D ≤ n * 10 ^ k < (v + 1) * D.
Proof.
  intros HM Hh Hne n D.
  assert (Hl : String.length h ≠ 0%nat) by (destruct h; [contradiction|discriminate]).
  pose proof (hexValue_bound h) as Hn. fold n in Hn. fold D in Hn.
  assert (HD : 0 < D) by (unfold D; apply Z.pow_pos_nonneg; lia).
  destruct (decimalLoop_spec n D
              (Z.to_nat (Z.min (Z.of_nat (String.length h)) M)) 0 "3." HD ltac:(lia))
    as (k & Hk & Hk1 & Hloop & _).
  assert (Hstart : remainderAfter n D 0 = n).
  { unfold remainderAfter. rewrite Z.mul_1_r. apply Z.mod_small. lia. }
  rewrite Hstart in Hloop.
  exists (map (decimalDigit n D) (seq 1 k)).
  split; [|split; [|split]].
  - rewrite (hexFractionToDecimal_hex h M Hh Hl). fold D. fold n. now rewrite Hloop.
  - apply Forall_forall. intros x Hx. apply list_elem_of_In, in_map_iff in Hx as (j & <- & _).
    unfold decimalDigit. pose proof (Z.mod_pos_bound (n * 10 ^ Z.of_nat j / D) 10). lia.
  - rewrite length_map, length_seq. lia.
  - rewrite length_map, length_seq. cbv zeta.
    rewrite (horner_decimal_digits n D k Hn).
    set (x := n * 10 ^ Z.of_nat k).
    pose proof (Z.mul_div_le x D HD). pose proof (Z.mul_succ_div_gt x D HD). lia.
Qed.

Lemma digits_truncate_witness :
  ∃ digits : list Z,
    hexFractionToDecimal "243f" 3 = Some ("3." +:+ digitsString digits)
    ∧ Forall (fun x => 0 ≤ x ≤ 9) digits
    ∧ (1 ≤ length digits)%nat
    ∧ let k := Z.of_nat (length digits) in
      let v := fold_left (fun a x => a * 10 + x) digits 0 in
      v * 16 ^ 4 ≤ hexValue "243f" * 10 ^ k < (v + 1) * 16 ^ 4.
Proof.
  apply (digits_truncate "243f" 3); [lia|reflexivity|discriminate].
Defined.

(** ** More on reconnecting *)

Lemma handleEvent_delay_range e d :
  maxReconnectDelay d = 30000 →
  1000 ≤ reconnectDelay d ≤ 30000 →
  1000 ≤ reconnectDelay (handleEvent e d).1 ≤ 30000
  ∧ Forall (fun t => 1000 ≤ t ≤ 30000) (handleEvent e d).2.
Proof.
  intros Hmax Hd. destruct e as [| | |created]; simpl.
  - split; [lia|constructor].
  - split; [lia|constructor].
  - split; [lia|]. constructor; [cbn; lia|constructor].
  - unfold reconnect. destruct (ws d) as [[]|]; simpl; try (split; [lia|constructor]).
    destruct created; simpl; rewrite Hmax.
    + split; [lia|constructor].
    + split; [lia|]. constructor; [cbn; lia|constructor].
Qed.

(** X13. Whatever happens to the connection, and whether creating the
    first socket succeeds or throws, the reconnect delay stays between
    1000 and 30000, and so does the delay of every timer that is set. *)
Theorem delay_stays_in_range created events :
  let start := connect created new_Dashboard in
  1000 ≤ reconnectDelay (run events start.1).1 ≤ 30000
  ∧ Forall (fun t => 1000 ≤ t ≤ 30000) (start.2 ++ (run events start.1).2).
Proof.
  intros start.
  assert (H : ∀ d, maxReconnectDelay d = 30000 → 1000 ≤ reconnectDelay d ≤ 30000 →
              1000 ≤ reconnectDelay (run events d).1 ≤ 30000
              ∧ Forall (fun t => 1000 ≤ t ≤ 30000) (run events d).2).
  { induction events as [|e events IH]; intros d Hmax Hd.
    - simpl. split; [lia|constructor].
    - simpl. pose proof (handleEvent_delay_range e d Hmax Hd) as [H1 H2].
      pose proof (handleEvent_maxReconnectDelay e d) as H3.
      destruct (handleEvent e d) as [d1 t1]. simpl in *.
      destruct (IH d1 ltac:(congruence) H1) as [H4 H5].
      destruct (run events d1) as [d2 t2]. simpl in *.
      split; [exact H4|]. apply Forall_app. auto. }
  destruct (H start.1) as [H1 H2].
  - unfold start. now destruct created.
  - unfold start. destruct created; simpl; lia.
  - split; [exact H1|]. apply Forall_app. split; [|exact H2].
    unfold start. destruct created; simpl; [constructor|].
    constructor; [cbn; lia|constructor].
Qed.

(** X14. When creating the first socket throws, [this.ws] stays [null]:
    one timer is set, with the delay 1000, and neither its callback nor
    any later one reconnects or sets a timer; the dashboard stays as it
    is. *)
Theorem no_reconnect_without_socket (fired : list bool) :
  let start := connect false new_Dashboard in
  start.2 = [1000]
  ∧ ws start.1 = None
  ∧ run (map timer fired) start.1 = (start.1, []).
Proof.
  intros start. split; [reflexivity|]. split; [reflexivity|].
  induction fired as [|c fired IH]; [reflexivity|].
  simpl. simpl in IH. now rewrite IH.
Qed.

(** X15. A reconnect in which creating the socket throws is scheduled
    again from inside the callback, before the delay is doubled: after a
    close, the timers of [n] such reconnects in a row are set with the
    delays 1000, 1000, 2000, 4000, ..., that is the first retry repeats
    the delay of the timer that ran it. *)
Theorem throwing_reconnect_repeats_delay n :
  (run (onclose :: map timer (replicate n false)) fresh_session).2
  = 1000 :: map (fun k => Z.min (1000 * 2 ^ (Z.of_nat k - 1)) 30000) (seq 1 n).
Proof.
  change (onclose :: map timer (replicate n false))
    with ([onclose] ++ map timer (replicate n false)).
  rewrite run_app. simpl. f_equal.
  assert (H : ∀ k d, (1 ≤ k)%nat → ws d = Some CLOSED →
              maxReconnectDelay d = 30000 → reconnectDelay d = backoff k →
              (run (map timer (replicate n false)) d).2 = map backoff (seq k n)).
  { induction n as [|n IH]; intros k d Hk Hws Hmax Hdelay; [reflexivity|].
    simpl. unfold reconnect. rewrite Hws. simpl.
    destruct (run _ _) as [d2 t2] eqn:Hrun. simpl. f_equal; [exact Hdelay|].
    change t2 with (d2, t2).2. rewrite <- Hrun.
    apply IH; simpl; [lia|exact Hws|exact Hmax|].
    rewrite Hmax, Hdelay. now apply backoff_next. }
  apply (H 1%nat); [lia|reflexivity|reflexivity|reflexivity].
Qed.

(** ** The reference digits *)

Lemma split_lines_cons text : ∃ line lines, split_lines text = line :: lines.
Proof.
  destruct text as [|c rest]; simpl; [eauto|].
  destruct (Ascii.eqb c "010"); [eauto|].
  destruct (split_lines rest); eauto.
Qed.

Lemma line_feed_is_space c : Ascii.eqb c "010" = true → is_white_space c = true.
Proof. intros H. apply Ascii.eqb_eq in H. now subst. Qed.

Lemma existsb_split_lines text :
  existsb has_non_space (split_lines text) = has_non_space text.
Proof.
  induction text as [|c rest IH]; [reflexivity|].
  cbn [split_lines has_non_space].
  destruct (Ascii.eqb c "010") eqn:Hc.
  - rewrite (line_feed_is_space c Hc). simpl. exact IH.
  - destruct (split_lines_cons rest) as (line & lines & Hs).
    rewrite Hs in *. simpl in *. rewrite <- IH. now rewrite orb_assoc.
Qed.

Lemma filter_nil_existsb {A : Type} (f : A → bool) (l : list A) :
  List.filter f l = [] ↔ existsb f l = false.
Proof.
  induction l as [|x l IH]; simpl; [tauto|].
  destruct (f x); simpl; [split; discriminate|exact IH].
Qed.

(** X16. [loadCorrectPi] reports an empty file, and sets no reference
    digits, exactly when the text has no character other than white
    space. *)
Theorem parsePiText_empty text :
  parsePiText text = None ↔ has_non_space text = false.
Proof.
  unfold parsePiText. rewrite <- existsb_split_lines, <- filter_nil_existsb.
  destruct (List.filter has_non_space (split_lines text)); split;
    try reflexivity; discriminate.
Qed.

Lemma fold_append (f : string → string) lines acc :
  fold_left (fun piString line => piString +:+ f line) lines acc
  = acc +:+ joinAll (map f lines).
Proof.
  revert acc. induction lines as [|l lines IH]; intros acc; simpl.
  - now rewrite append_empty_r.
  - rewrite IH. apply append_assoc.
Qed.

Lemma remove_spaces_lines text :
  joinAll (map remove_spaces (List.filter has_non_space (split_lines text)))
  = remove_spaces text.
Proof.
  induction text as [|c rest IH]; [reflexivity|].
  cbn [split_lines remove_spaces].
  destruct (Ascii.eqb c "010") eqn:Hc.
  - rewrite (line_feed_is_space c Hc). simpl. exact IH.
  - destruct (split_lines_cons rest) as (line & lines & Hs).
    rewrite Hs in *. cbn [List.filter has_non_space] in *.
    destruct (is_white_space c) eqn:Hw; simpl negb; cbn [orb].
    + destruct (has_non_space line); simpl in *; [now rewrite Hw|exact IH].
    + rewrite <- IH. destruct (has_non_space line) eqn:Hl; simpl; rewrite Hw.
      * reflexivity.
      * assert (Hnil : remove_spaces line = "").
        { clear -Hl. induction line as [|a line IH]; [reflexivity|].
          simpl in *. apply orb_false_iff in Hl as [Ha Hl].
          apply negb_false_iff in Ha. rewrite Ha. now apply IH. }
        now rewrite Hnil.
Qed.

Lemma split_lines_app text rest :
  split_lines (text +:+ String "010" rest) = split_lines text ++ split_lines rest.
Proof.
  induction text as [|c text IH]; [reflexivity|].
  change (String c text +:+ String "010" rest)
    with (String c (text +:+ String "010" rest)).
  cbn [split_lines]. rewrite IH.
  destruct (Ascii.eqb c "010"); [reflexivity|].
  now destruct (split_lines_cons text) as (line & lines & ->).
Qed.

Lemma split_one_line line : one_line line = true → split_lines line = [line].
Proof.
  induction line as [|c line IH]; [reflexivity|].
  simpl. intros H. apply andb_prop in H as [Hc Hl].
  apply negb_true_iff in Hc. now rewrite Hc, (IH Hl).
Qed.

Lemma first_line_alone lead header :
  has_non_space lead = false → one_line header = true →
  has_non_space header = true →
  ∃ line, List.filter has_non_space (split_lines (lead +:+ header)) = [line].
Proof.
  intros Hlead Hone Hhead. induction lead as [|c lead IH].
  - exists header. change ("" +:+ header) with header.
    rewrite (split_one_line header Hone). simpl. now rewrite Hhead.
  - simpl in Hlead. apply orb_false_iff in Hlead as [Hc Hlead].
    apply negb_false_iff in Hc. destruct (IH Hlead) as [line Hline].
    change (String c lead +:+ header) with (String c (lead +:+ header)).
    cbn [split_lines]. destruct (Ascii.eqb c "010"); [now exists line|].
    destruct (split_lines_cons (lead +:+ header)) as (l & ls & Hs).
    rewrite Hs in *. cbn [List.filter has_non_space] in *. rewrite Hc. simpl.
    destruct (has_non_space l).
    + injection Hline as _ ->. eauto.
    + eauto.
Qed.

(** X17. [loadCorrectPi] drops the first line that is not blank, whatever
    it says, and joins what follows with all white space removed: for a
    text made of white space, then a header on one line, then, after a
    line feed, a body, the reference digits are ["3."] followed by the
    body without its white space; and they are ["3."] alone when the
    text ends with the header. *)
Theorem parsePiText_header_body lead header body :
  has_non_space lead = false →
  one_line header = true →
  has_non_space header = true →
  parsePiText (lead +:+ header +:+ String "010" body)
  = Some ("3." +:+ remove_spaces body)
  ∧ parsePiText (lead +:+ header) = Some "3.".
Proof.
  intros Hlead Hone Hhead.
  destruct (first_line_alone lead header Hlead Hone Hhead) as [line Hline].
  split.
  - unfold parsePiText. rewrite <- append_assoc, split_lines_app, List.filter_app, Hline.
    simpl. now rewrite fold_append, remove_spaces_lines.
  - unfold parsePiText. now rewrite Hline.
Qed.

Lemma parsePiText_header_body_witness :
  let body := "1415 9265" +:+ String "010" " 3589" in
  parsePiText ("  " +:+ "pi = 3." +:+ String "010" body)
  = Some ("3." +:+ remove_spaces body)
  ∧ remove_spaces body = "141592653589".
Proof.
  intros body. split; [|reflexivity].
  apply (proj1 (parsePiText_header_body "  " "pi = 3." body eq_refl eq_refl eq_refl)).
Defined.

(** The no-break space U+00A0 counts as white space: a text made of it
    alone is reported empty, and it is removed from the digits. *)
Example no_break_space_is_blank :
  parsePiText (String "160" "") = None
  ∧ parsePiText ("3." +:+ String "010" ("14" +:+ String "160" "15")) = Some "3.1415".
Proof. split; reflexivity. Qed.

(** ** The grid of digits *)




(** X19. Once the high-water mark is [NaN], whatever messages follow,
    the grid has no span at all, without showing the waiting message,
    and the prefix of resolved digits is empty. *)
Theorem NaN_mark_blanks_the_views msgs d :
  maxDigit d = NaN →
  renderPiDigits (runMessages msgs d) = Some []
  ∧ getAllHexDigits (runMessages msgs d) = "".
Proof.
  intros Hnan. pose proof (runMessages_maxDigit msgs d) as H.
  rewrite Hnan in H. simpl in H. symmetry in H.
  split.
  - unfold renderPiDigits. now rewrite H.
  - now apply getAllHexDigits_NaN.
Qed.

Lemma NaN_mark_blanks_the_views_witness :
  let d := updateJobStates [mkJob (Some (mkPayload (VStr "bbp_hex") VNull (VNum 2)))] []
             (updateResultState (Some (hex_result "243f" 0 4)) new_Dashboard) in
  digitStates d !! Int 0 = Some (mkDigitState SResult (Some "2"))
  ∧ renderPiDigits
      (runMessages [(5, job_update [bbp_job 0 8] [])] d) = Some []
  ∧ getAllHexDigits (runMessages [(5, job_update [bbp_job 0 8] [])] d) = "".
Proof.
  intros d. split; [reflexivity|].
  apply (NaN_mark_blanks_the_views [(5, job_update [bbp_job 0 8] [])] d). reflexivity.
Defined.

(** ** The age of a result *)

Lemma ToString_negative k : 0 < k → ToString (VNum (- k)) = "-" +:+ ToString (VNum k).
Proof. destruct k as [|p|p]; try lia. reflexivity. Qed.

(** X20. A timestamp ahead of the clock is shown with a negative age:
    when the clock and the timestamp are times that a [Date] holds and
    the timestamp lies in the future by more than [k - 1] and at most
    [k] seconds, with [k] from 1 to 10^12, the text is
    ["-k seconds ago"]. *)
Theorem future_timestamp_has_negative_age toLocaleString nowMs timestamp k :
  valid_time nowMs = true →
  valid_time (timestamp * 1000) = true →
  1 ≤ k ≤ 1000000000000 →
  (k - 1) * 1000 < timestamp * 1000 - nowMs ≤ k * 1000 →
  formatTimestamp toLocaleString nowMs timestamp
  = "-" +:+ ToString (VNum k) +:+ " seconds ago".
Proof.
  intros _ Hvalid Hk Hrange. unfold formatTimestamp. rewrite Hvalid.
  assert (Hdiff : (nowMs - timestamp * 1000) / 1000 = - k).
  { symmetry. apply Z.div_unique with (r := nowMs - timestamp * 1000 + k * 1000); lia. }
  rewrite Hdiff. destruct (Z.ltb_spec (- k) 60); [|lia].
  rewrite ToString_negative by lia. now rewrite append_assoc.
Qed.

(** A timestamp beyond the range of [Date] is rendered as the invalid
    date, however far ahead of the clock it lies. *)
Example invalid_date_is_rendered :
  formatTimestamp (fun _ => "Invalid Date") 1700000000000 8640000000001 = "Invalid Date".
Proof. reflexivity. Qed.

Lemma future_timestamp_has_negative_age_witness :
  formatTimestamp (fun _ => "") 1700000000250 1700000003 = "-3 seconds ago".
Proof.
  apply (future_timestamp_has_negative_age (fun _ => "") 1700000000250 1700000003 3);
    [reflexivity | reflexivity | lia | lia].
Defined.

(** ** Highlighting against the reference *)

Lemma highlight_cons c s ref :
  forallb snd (highlight ref (String c s))
  = match ref with
    | String r ref' => bool_decide (c = r) && forallb snd (highlight ref' s)
    | EmptyString => false
    end.
Proof.
  unfold highlight. cbn [String.length seq map forallb snd].
  rewrite <- seq_shift, !map_map.
  destruct ref as [|r ref']; [reflexivity|].
  cbn [String.length]. change (0 <? S (String.length ref'))%nat with true.
  cbn [andb]. f_equal.
  change (substring 0 1 (String c s)) with (String c (substring 0 0 s)).
  change (substring 0 1 (String r ref')) with (String r (substring 0 0 ref')).
  rewrite !substring_zero.
  destruct (decide (c = r)) as [->|Hne].
  - now rewrite !bool_decide_eq_true_2.
  - rewrite !bool_decide_eq_false_2; [reflexivity|assumption|congruence].
Qed.

(** X21. Every character of the decimal string is highlighted exactly
    when the decimal string is a prefix of the reference digits. *)
Theorem all_highlighted_iff_prefix correctPi decimalString :
  forallb snd (highlight correctPi decimalString) = String.prefix decimalString correctPi.
Proof.
  revert correctPi. induction decimalString as [|c s IH]; intros ref.
  - now destruct ref.
  - rewrite highlight_cons. destruct ref as [|r ref']; [reflexivity|].
    cbn [String.prefix]. rewrite IH.
    destruct (ascii_dec c r) as [->|Hne].
    + now rewrite bool_decide_eq_true_2.
    + now rewrite bool_decide_eq_false_2.
Qed.

(** ** The range of a job *)

(** X22. A [bbp_hex] job whose [start] and [count] are the numbers [s]
    and [c], safe integers with [c] at most 10^6 and [s + c] safe as
    well, asserts exactly the indices [s], ..., [s + c - 1], none when
    [c ≤ 0], and raises the high-water mark to [s + c - 1] at least. *)
Theorem job_covers_its_range (s c : Z) (m : num) (k : num) :
  safe s = true →
  safe c = true →
  c ≤ 1000000 →
  safe (s + c) = true →
  (k ∈ (collectJob (bbp_job s c) (∅, m)).1 ↔ ∃ z, k = Int z ∧ s ≤ z < s + c)
  ∧ (collectJob (bbp_job s c) (∅, m)).2
    = (if 0 <? c then Math_max m (Int (s + c - 1)) else m).
Proof.
  intros Hsafe_s Hsafe_c _ _.
  rewrite collectJob_spec.
  assert (Hidx : jobIndices (bbp_job s c) = map (add (Int s)) (loop_range (Int c))).
  { unfold jobIndices, bbp_job, recognized. cbn [payload p_type p_start p_count].
    rewrite (parseInt_VNum s Hsafe_s), (parseInt_VNum c Hsafe_c).
    rewrite bool_decide_eq_true_2 by reflexivity.
    now rewrite !bool_decide_eq_false_2 by discriminate. }
  rewrite Hidx. cbn [fst snd]. split.
  - rewrite elem_of_union, elem_of_list_to_set, list_elem_of_fmap. split.
    + intros [(i & -> & Hi)|Hempty]; [|now apply elem_of_empty in Hempty].
      apply elem_of_loop_range in Hi. exists (s + i). split; [reflexivity|lia].
    + intros (z & -> & Hz). left. exists (z - s). split; [simpl; f_equal; lia|].
      apply elem_of_loop_range. lia.
  - apply lmax_loop_range.
Qed.

Lemma job_covers_its_range_witness :
  Int 9 ∈ (collectJob (bbp_job 8 2) (∅, Int 7)).1
  ∧ (collectJob (bbp_job 8 2) (∅, Int 7)).2 = Int 9.
Proof.
  destruct (job_covers_its_range 8 2 (Int 7) (Int 9) eq_refl eq_refl
              ltac:(lia) eq_refl)
    as [Hin Hmark].
  split; [|exact Hmark].
  apply Hin. exists 9. split; [reflexivity|lia].
Defined.
